(** * haighlighter: the highlight overlay of the editor front end

    A shallow embedding of the two event handlers of the front end,

    - [handleTextSubmit] (App.jsx): post the text to the scorer and
      reconcile the highlights with the spans of the reply;
    - the click listener of [Editor] (Editor.jsx): dismiss the highlight the
      user clicked;

    together with the [HighlightBlot] format both of them drive.  The
    rich-text engine (Quill) is a third-party library: it is modelled from
    the Document Facade contract of the specification.  Where the contract
    leaves the engine open (which run an index on a boundary resolves to)
    the click listener takes the engine's answer as a parameter, and the
    properties hold for every engine that meets the contract. *)

From Stdlib Require Import ZArith Ascii String.
From stdpp Require Import gmap strings list fin_maps.

Set Warnings "-register-all".
Local Open Scope string_scope.
Local Open Scope list_scope.

(** ** JavaScript values

    The body of the scorer's reply is decoded by [response.json()], so it is
    an arbitrary JSON value; destructuring adds [undefined].  Numbers are
    the integer offsets of the scorer protocol. *)
Module Js.

Inductive Value : Type :=
| VUndefined
| VNull
| VBool (b : bool)
| VNum (n : Z)
| VStr (s : string)
| VArr (elems : list Value)
| VObj (fields : list (string * Value)).

(** [ToBoolean]: what [&&], [||] and [if] test. *)
Definition truthy (v : Value) : bool :=
  match v with
  | VUndefined | VNull => false
  | VBool b => b
  | VNum n => negb (n =? 0)%Z
  | VStr s => negb (String.eqb s "")
  | VArr _ | VObj _ => true
  end.

(** The [typeof] operator. *)
Definition typeof (v : Value) : string :=
  match v with
  | VUndefined => "undefined"
  | VNull => "object"
  | VBool _ => "boolean"
  | VNum _ => "number"
  | VStr _ => "string"
  | VArr _ | VObj _ => "object"
  end.

Definition isArray (v : Value) : bool :=
  match v with VArr _ => true | _ => false end.

(** [a > b] on values the caller has checked to be numbers; any other
    operand makes the comparison false here. *)
Definition gt (a b : Value) : bool :=
  match a, b with
  | VNum x, VNum y => (y <? x)%Z
  | _, _ => false
  end.

(** The iterator protocol as array destructuring uses it: arrays yield
    their elements, strings their characters, nothing else in a JSON value
    is iterable. *)
Definition iterate (v : Value) : option (list Value) :=
  match v with
  | VArr elems => Some elems
  | VStr s => Some ((λ c, VStr (String c EmptyString)) <$> list_ascii_of_string s)
  | _ => None
  end.

End Js.

Import Js.

(** ** The document

    A document is its characters, each with the formats it carries
    (format name to attribute value).  Runs are derived from it: the
    maximal stretches of characters with one and the same format set. *)
Record Char : Type := mkChar
  { code : ascii;
    formats : gmap string string }.

Abbreviation Document := (list Char).

Record Range : Type := mkRange
  { range_index : nat;
    range_length : nat }.

(** A text leaf of the engine: one run, with its offset in the document. *)
Record Leaf : Type := mkLeaf
  { leaf_offset : nat;
    text : list ascii;
    leaf_formats : gmap string string }.

(** ** HighlightBlot (Editor.jsx) *)
Module HighlightBlot.

Definition blotName : string := "highlight".
Definition tagName : string := "span".
Definition className : string := "ql-highlight".

(** A DOM node of the blot: its tag, its class and its attributes. *)
Record Node : Type := mkNode
  { node_tag : string;
    node_class : string;
    node_attrs : gmap string string }.

(** [static create(value)]: [super.create()] makes the element with the
    blot's tag and class, then the attribute is set.  The format is
    boolean-valued (the program applies it with [true] and removes it with
    [false]), so [value] is a boolean: [value || 'true'] is [true], which
    [setAttribute] writes as the string "true", or it is the string
    ['true']. *)
Definition create (value : bool) : Node :=
  {| node_tag := tagName;
     node_class := className;
     node_attrs := <["data-highlight" := if value then "true" else "true"]> ∅ |}.

(** [static formats(node)]; [getAttribute] of a missing attribute is null. *)
Definition formats (node : Node) : option string :=
  node_attrs node !! "data-highlight".

End HighlightBlot.

(** ** The rich-text engine *)
Module Quill.

(** The editor instance: the document it holds and the user's selection
    ([None] when the editor has no focus). *)
Record Instance : Type := mkInstance
  { contents : Document;
    selection : option Range }.

(** Modelled from the spec: [getText] of the Document Facade, the full plain
    text, whose length is authoritative for offset arithmetic. *)
Definition getText (q : Instance) : string :=
  string_of_list_ascii (code <$> contents q).

(** The value a format takes on the text: a blot stores what its [create]
    writes and its [formats] reads back; the one blot this program
    registers is [HighlightBlot]. *)
Definition blot_value (name : string) (value : bool) : string :=
  if String.eqb name HighlightBlot.blotName
  then default "" (HighlightBlot.formats (HighlightBlot.create value))
  else if value then "true" else "false".

Definition format_char (name : string) (value : bool) (c : Char) : Char :=
  {| code := code c;
     formats := if value
                then <[name := blot_value name value]> (formats c)
                else delete name (formats c) |}.

Definition in_range (start len : Z) (i : nat) : bool :=
  (start <=? Z.of_nat i)%Z && (Z.of_nat i <? start + len)%Z.

(** Modelled from the spec: [setFormat(start, length, formatName, value)] of
    the Document Facade.  It applies [value] for the format over
    [[start, start+length)]; a range that exceeds the text is clamped, the
    excess is skipped and nothing is raised.  The value [false] removes the
    format. *)
Definition formatText (start len : Z) (name : string) (value : bool)
    (q : Instance) : Instance :=
  {| contents :=
       imap (λ i c, if in_range start len i then format_char name value c else c)
            (contents q);
     selection := selection q |}.

(** Modelled from the spec: the runs of the Document data model, whose
    boundaries are exactly the boundaries where the format set changes. *)
Fixpoint runs (doc : Document) : list (gmap string string * list ascii) :=
  match doc with
  | [] => []
  | c :: rest =>
      match runs rest with
      | (f, s) :: rs =>
          if decide (formats c = f)
          then (f, code c :: s) :: rs
          else (formats c, [code c]) :: (f, s) :: rs
      | [] => [(formats c, [code c])]
      end
  end.

(** Modelled from the spec: [resolveRun(index)] of the Document Facade
    returns the run that contains the index.  That fixes the answer for an
    index inside a run and leaves open which of two runs an index on their
    boundary resolves to, so a handler takes the engine's [getLeaf] as a
    parameter, a [Resolver]; what the specification says of it is
    [resolves_runs] below.  The answer is null when the engine finds no
    leaf. *)
Definition Resolver : Type := nat → Instance → option Leaf.

(** One engine that meets the contract: an index on the boundary of two
    runs resolves to the run that ends there, the offset at the end of the
    text to the last run. *)
Fixpoint find_leaf (off : nat) (rs : list (gmap string string * list ascii))
    (i : nat) : option Leaf :=
  match rs with
  | [] => None
  | (f, s) :: rs' =>
      if (i <=? List.length s)%nat
      then Some {| leaf_offset := off; text := s; leaf_formats := f |}
      else find_leaf (off + List.length s) rs' (i - List.length s)
  end.

Definition getLeaf : Resolver :=
  λ i q, find_leaf 0 (runs (contents q)) i.

(** Modelled from the spec: the start offset of a resolved run
    ([getIndex]). *)
Definition getIndex (leaf : Leaf) (q : Instance) : nat := leaf_offset leaf.

Definition getSelection (q : Instance) : option Range := selection q.

End Quill.

(** The highlight state, character by character. *)
Definition highlighted (doc : Document) (i : nat) : bool :=
  match doc !! i with
  | Some c => bool_decide (is_Some (formats c !! "highlight"))
  | None => false
  end.

(** ** Effects

    What a handler can touch: the editor instance (one object, shared by
    the ref of [App] and the closure of the click listener), whether
    [quillRef.current] still points to it (it is null after unmount), and
    what has been written to the console and sent to the network. *)
Inductive Exn : Type :=
| TypeError (msg : string)
| NetworkError (msg : string)
| SyntaxError (msg : string).

Inductive Event : Type :=
| ConsoleLog (label : string) (arg : Value)
| ConsoleError (label : string) (err : Exn)
| FetchCall (url method body_text : string).

Record World : Type := mkWorld
  { quill : Quill.Instance;
    quillRef_current : bool;
    trace : list Event }.

(** A computation either returns or throws, and the mutations made before
    a throw stay. *)
Definition M (A : Type) : Type := World → (Exn + A) * World.

#[global] Instance M_ret : MRet M := λ A a w, (inr a, w).

#[global] Instance M_bind : MBind M := λ A B f m w,
  match m w with
  | (inr a, w') => f a w'
  | (inl e, w') => (inl e, w')
  end.

Definition throw {A : Type} (e : Exn) : M A := λ w, (inl e, w).

(** [try { body } catch (error) { handler }] *)
Definition try_catch {A : Type} (body : M A) (handler : Exn → M A) : M A :=
  λ w, match body w with
       | (inr a, w') => (inr a, w')
       | (inl e, w') => handler e w'
       end.

Definition emit (ev : Event) : M unit :=
  λ w, (inr tt, {| quill := quill w;
                   quillRef_current := quillRef_current w;
                   trace := trace w ++ [ev] |}).

Definition console_log (label : string) (arg : Value) : M unit :=
  emit (ConsoleLog label arg).

Definition console_error (label : string) (err : Exn) : M unit :=
  emit (ConsoleError label err).

(** Reading and calling the shared editor instance. *)
Definition get_quillRef_current : M bool := λ w, (inr (quillRef_current w), w).

Definition quill_get {A : Type} (f : Quill.Instance → A) : M A :=
  λ w, (inr (f (quill w)), w).

Definition quill_formatText (start len : Z) (name : string) (value : bool) : M unit :=
  λ w, (inr tt, {| quill := Quill.formatText start len name value (quill w);
                   quillRef_current := quillRef_current w;
                   trace := trace w |}).

(** ** The network

    The scorer is not part of the program: what comes back from one round
    trip is an input of the handler. *)
Inductive Response : Type :=
| mkResponse (json : Exn + Value).

Inductive Reply : Type :=
| FetchRejects (e : Exn)
| FetchResolves (response : Response).

Definition fetch (url method body_text : string) (reply : Reply) : M Response :=
  emit (FetchCall url method body_text);;
  match reply with
  | FetchRejects e => throw e
  | FetchResolves response => mret response
  end.

Definition response_json (response : Response) : M Value :=
  match response with
  | mkResponse (inl e) => throw e
  | mkResponse (inr v) => mret v
  end.

(** ** App.jsx *)

Definition FEEDBACK_URL : string := "http://0.0.0.0:8000/submit-draft".

(** [([start, length]) => ...]: the parameter pattern takes the first two
    values the argument yields, [undefined] where it yields fewer, and
    throws when the argument is not iterable. *)
Definition destructure_pair (arg : Value) : M (Value * Value) :=
  match Js.iterate arg with
  | Some vs => mret (nth 0 vs VUndefined, nth 1 vs VUndefined)
  | None => throw (TypeError "argument is not iterable")
  end.

(** [Array.prototype.forEach]: a throw of the callback ends the loop. *)
Fixpoint forEach (elems : list Value) (callback : Value → M unit) : M unit :=
  match elems with
  | [] => mret tt
  | e :: rest => callback e;; forEach rest callback
  end.

(** The callback of the loop over the reply (App.jsx, lines 89-93). *)
Definition apply_tuple (tuple : Value) : M unit :=
  '(start, len) ← destructure_pair tuple;
  if String.eqb (typeof start) "number" && String.eqb (typeof len) "number"
     && Js.gt len (VNum 0%Z)
  then match start, len with
       | VNum s, VNum l => quill_formatText s l "highlight" true
       | _, _ => mret tt
       end
  else mret tt.

(** The reconciliation block of [handleTextSubmit] (App.jsx, lines 81-94):
    clear every highlight, then highlight the tuples of the reply. *)
Definition applyAnnotations (result : Value) : M unit :=
  current ← get_quillRef_current;
  if current && truthy result && isArray result
  then
    text ← quill_get Quill.getText;
    quill_formatText 0%Z (Z.of_nat (String.length text)) "highlight" false;;
    match result with
    | VArr elems => forEach elems apply_tuple
    | _ => mret tt
    end
  else mret tt.

(** [handleTextSubmit] (App.jsx, lines 65-98). *)
Definition handleTextSubmit (reply : Reply) (text : string) : M unit :=
  console_log "Text submitted from editor:" (VStr text);;
  try_catch
    (response ← fetch FEEDBACK_URL "POST" text reply;
     result ← response_json response;
     console_log "Feedback API response:" result;;
     applyAnnotations result)
    (λ error, console_error "Error calling feedback API:" error).

(** ** Editor.jsx *)

(** What the click listener reads of the event: the class list of its
    target element. *)
Record MouseEvent : Type := mkMouseEvent
  { target_classList : list string }.

Definition classList_contains (classes : list string) (name : string) : bool :=
  bool_decide (name ∈ classes).

(** The click listener of the editor container (Editor.jsx, lines 58-72),
    over the engine's [getLeaf].  [leaf] is null when the index resolves to
    no leaf, and reading it throws. *)
Definition onClick (getLeaf : Quill.Resolver) (e : MouseEvent) : M unit :=
  if classList_contains (target_classList e) HighlightBlot.className
  then
    range ← quill_get Quill.getSelection;
    match range with
    | Some range =>
        leaf ← quill_get (getLeaf (range_index range));
        match leaf with
        | Some leaf =>
            leafIndex ← quill_get (Quill.getIndex leaf);
            let leafLength := List.length (text leaf) in
            quill_formatText (Z.of_nat leafIndex) (Z.of_nat leafLength)
              "highlight" false
        | None => throw (TypeError "leaf is null")
        end
    | None => mret tt
    end
  else mret tt.

(** ** Observations *)

(** The document a handler leaves behind, and how it ended. *)
Definition document_after (m : M unit) (w : World) : Document :=
  Quill.contents (quill (m w).2).

Definition outcome (m : M unit) (w : World) : Exn + unit := (m w).1.

Definition trace_after (m : M unit) (w : World) : list Event := trace (m w).2.

Definition is_error (ev : Event) : bool :=
  match ev with ConsoleError _ _ => true | _ => false end.

Definition is_fetch (ev : Event) : bool :=
  match ev with FetchCall _ _ _ => true | _ => false end.

(** The scorer answers with a decodable body. *)
Definition replies (body : Value) : Reply := FetchResolves (mkResponse (inr body)).

(** A span list as the scorer encodes it: a sequence of [[start, length]]. *)
Definition span_json (sp : Z * Z) : Value := VArr [VNum sp.1; VNum sp.2].

Definition spans_json (S : list (Z * Z)) : Value := VArr (span_json <$> S).

(** The half-open range of a span. *)
Definition covers (sp : Z * Z) (i : nat) : Prop :=
  (sp.1 ≤ Z.of_nat i < sp.1 + sp.2)%Z.

Definition in_bounds (N : nat) (sp : Z * Z) : Prop :=
  (0 ≤ sp.1 ∧ 0 < sp.2 ∧ sp.1 + sp.2 ≤ Z.of_nat N)%Z.

Definition apart (p q : Z * Z) : Prop :=
  (p.1 + p.2 ≤ q.1 ∨ q.1 + q.2 ≤ p.1)%Z.

Fixpoint disjoint_spans (S : list (Z * Z)) : Prop :=
  match S with
  | [] => True
  | p :: rest => Forall (apart p) rest ∧ disjoint_spans rest
  end.

(** Sample documents. *)
Definition plain (s : string) : Document :=
  (λ a, {| code := a; formats := ∅ |}) <$> list_ascii_of_string s.

Definition editor (doc : Document) (sel : option Range) : World :=
  {| quill := {| Quill.contents := doc; Quill.selection := sel |};
     quillRef_current := true;
     trace := [] |}.

(** ** The vocabulary of the properties *)

(** Setting and removing the highlight on one character. *)
Definition highlight_on (c : Char) : Char := Quill.format_char "highlight" true c.
Definition highlight_off (c : Char) : Char := Quill.format_char "highlight" false c.

(** *** What the reconciliation loop does, read off the reply *)

Definition with_quill (q : Quill.Instance) (w : World) : World :=
  {| quill := q; quillRef_current := quillRef_current w; trace := trace w |}.

Definition with_trace (t : list Event) (w : World) : World :=
  {| quill := quill w; quillRef_current := quillRef_current w; trace := t |}.

(** The span an element of the reply stands for, if it passes the guard of
    the loop: its first two components are numbers and the second is
    strictly positive. *)
Definition tuple_span (tuple : Value) : option (Z * Z) :=
  match Js.iterate tuple with
  | Some vs =>
      match nth 0 vs VUndefined, nth 1 vs VUndefined with
      | VNum s, VNum l => if (0 <? l)%Z then Some (s, l) else None
      | _, _ => None
      end
  | None => None
  end.

Definition iterable (v : Value) : bool :=
  match Js.iterate v with Some _ => true | None => false end.

(** The formatting calls of the loop, in order. *)
Fixpoint applied_spans (elems : list Value) : list (Z * Z) :=
  match elems with
  | [] => []
  | e :: rest =>
      if iterable e
      then match tuple_span e with
           | Some sp => sp :: applied_spans rest
           | None => applied_spans rest
           end
      else []
  end.

(** How the loop ends. *)
Fixpoint loop_outcome (elems : list Value) : Exn + unit :=
  match elems with
  | [] => inr tt
  | e :: rest =>
      if iterable e then loop_outcome rest
      else inl (TypeError "argument is not iterable")
  end.

Definition highlight_span (q : Quill.Instance) (sp : Z * Z) : Quill.Instance :=
  Quill.formatText sp.1 sp.2 "highlight" true q.

Definition clear_highlights (q : Quill.Instance) : Quill.Instance :=
  Quill.formatText 0%Z (Z.of_nat (String.length (Quill.getText q)))
    "highlight" false q.

Definition reconciled (elems : list Value) (q : Quill.Instance) : Quill.Instance :=
  foldl highlight_span (clear_highlights q) (applied_spans elems).

(** What every round trip that reaches the decoded body leaves in the
    trace: the two log lines and the one request between them. *)
Definition submit_events (text : string) (result : Value) : list Event :=
  [ ConsoleLog "Text submitted from editor:" (VStr text);
    FetchCall FEEDBACK_URL "POST" text;
    ConsoleLog "Feedback API response:" result ].

(** The events of a round trip that fails before a body is decoded. *)
Definition failure_events (text : string) (e : Exn) : list Event :=
  [ ConsoleLog "Text submitted from editor:" (VStr text);
    FetchCall FEEDBACK_URL "POST" text;
    ConsoleError "Error calling feedback API:" e ].

(** The error with which the round trip itself fails, if it does. *)
Definition transport_failure (reply : Reply) : option Exn :=
  match reply with
  | FetchRejects e => Some e
  | FetchResolves (mkResponse (inl e)) => Some e
  | FetchResolves (mkResponse (inr _)) => None
  end.

Definition loop_events (elems : list Value) : list Event :=
  match loop_outcome elems with
  | inl e => [ConsoleError "Error calling feedback API:" e]
  | inr _ => []
  end.

(** *** Runs *)

(** The characters of one run, and of a sequence of runs. *)
Definition run_chars (r : gmap string string * list ascii) : Document :=
  (λ a, {| code := a; formats := r.1 |}) <$> r.2.

Fixpoint expand (rs : list (gmap string string * list ascii)) : Document :=
  match rs with
  | [] => []
  | r :: rest => run_chars r ++ expand rest
  end.

(** Neighbouring runs differ in their formats. *)
Fixpoint alternating (rs : list (gmap string string * list ascii)) : Prop :=
  match rs with
  | [] => True
  | r :: rest =>
      match rest with [] => True | r' :: _ => r.1 ≠ r'.1 end ∧ alternating rest
  end.

(** A run of the document: a stretch with one format set that cannot be
    extended on either side. *)
Definition is_run (doc : Document) (runStart runLength : nat)
    (f : gmap string string) : Prop :=
  0 < runLength
  ∧ (∀ j, runStart ≤ j < runStart + runLength → formats <$> doc !! j = Some f)
  ∧ (∀ j, j + 1 = runStart → formats <$> doc !! j ≠ Some f)
  ∧ formats <$> doc !! (runStart + runLength) ≠ Some f.

(** What the specification says of the engine's [getLeaf]: an index of a
    character resolves to a leaf, and a resolved leaf is a run of the
    document that contains the index, its two ends included. *)
Definition resolves_runs (getLeaf : Quill.Resolver) : Prop :=
  ∀ (i : nat) (q : Quill.Instance),
    (i < List.length (Quill.contents q) → is_Some (getLeaf i q))
    ∧ ∀ leaf, getLeaf i q = Some leaf →
        is_run (Quill.contents q) (leaf_offset leaf) (List.length (text leaf))
          (leaf_formats leaf)
        ∧ (leaf_offset leaf ≤ i ≤ leaf_offset leaf + List.length (text leaf))%nat.

#[global] Instance covers_dec (sp : Z * Z) (i : nat) : Decision (covers sp i).
Proof. unfold covers. apply _. Defined.

(** The run [[5, 15)] of the example, highlighted, in a text of twenty
    characters, with the caret at 9. *)
Definition dismiss_example : World :=
  editor (plain "01234" ++ (highlight_on <$> plain "56789abcde") ++ plain "fghij")
    (Some {| range_index := 9; range_length := 0 |}).


(** ** Editor.jsx, the rest of the mount effect *)

(** What the keydown listener reads of the event, and the flag
    [preventDefault] sets on it. *)
Record KeyboardEvent : Type := mkKeyboardEvent
  { ctrlKey : bool;
    key : string;
    defaultPrevented : bool }.

Definition preventDefault (e : KeyboardEvent) : KeyboardEvent :=
  {| ctrlKey := ctrlKey e; key := key e; defaultPrevented := true |}.

(** The keydown listener of the editor container (Editor.jsx, lines 75-86).
    [onSubmitRef_current] is the [onSubmit] prop as the ref holds it, absent
    when the host passes none.  The listener returns the event as it leaves
    it; a log line with a single argument carries [undefined] as its
    second. *)
Definition onKeydown (onSubmitRef_current : option (string → M unit))
    (e : KeyboardEvent) : M KeyboardEvent :=
  if ctrlKey e && String.eqb (key e) "Enter"
  then
    let e' := preventDefault e in
    console_log "Ctrl+Enter pressed via event listener!" VUndefined;;
    text ← quill_get Quill.getText;
    match onSubmitRef_current with
    | Some onSubmit => onSubmit text;; mret e'
    | None =>
        console_log "onSubmitRef.current is not available" VUndefined;;
        mret e'
    end
  else mret e.

(** The cleanup of the mount effect (Editor.jsx, lines 100-103): the ref is
    reset to null.  (Emptying the container also removes the listeners.) *)
Definition unmount : M unit :=
  λ w, (inr tt, {| quill := quill w; quillRef_current := false; trace := trace w |}).

(** *** More vocabulary *)

(** The events a handler adds to the trace. *)
Definition new_events (m : M unit) (w : World) : list Event :=
  drop (List.length (trace w)) (trace_after m w).

(** Spans that neither overlap nor touch. *)
Definition separated (S : list (Z * Z)) : Prop :=
  ∀ p q, p ∈ S → q ∈ S → p ≠ q → (p.1 + p.2 < q.1 ∨ q.1 + q.2 < p.1)%Z.

(** The characters of [[a, b)] carry the same formats, the highlight left
    aside. *)
Definition same_base (doc : Document) (a b : nat) : Prop :=
  ∀ i j ci cj, a ≤ i < b → a ≤ j < b →
    doc !! i = Some ci → doc !! j = Some cj →
    formats (highlight_off ci) = formats (highlight_off cj).

(** What a handler may do to a character without touching its text or any
    format but the highlight. *)
Definition same_but_highlight (c' c : Char) : Prop :=
  code c' = code c
  ∧ ∀ name, name ≠ "highlight" → formats c' !! name = formats c !! name.


(** * Properties *)

(** ** The engine's formatting call *)
Section formatText_facts.

Implicit Types (q : Quill.Instance) (c : Char) (doc : Document) (i : nat).

Lemma length_getText q :
  String.length (Quill.getText q) = List.length (Quill.contents q).
Proof.
  unfold Quill.getText.
  induction (Quill.contents q) as [|c doc IH]; simpl; [done | by f_equal].
Qed.

Lemma in_range_covers (sp : Z * Z) i :
  Quill.in_range sp.1 sp.2 i = true ↔ covers sp i.
Proof. unfold Quill.in_range, covers. rewrite andb_true_iff. lia. Qed.

Lemma in_range_whole doc i :
  i < List.length doc →
  Quill.in_range 0%Z (Z.of_nat (List.length doc)) i = true.
Proof. intros Hi. unfold Quill.in_range. rewrite andb_true_iff. lia. Qed.

Lemma lookup_formatText start len name value q i :
  Quill.contents (Quill.formatText start len name value q) !! i
  = (λ c, if Quill.in_range start len i
          then Quill.format_char name value c else c) <$> Quill.contents q !! i.
Proof. unfold Quill.formatText. simpl. by rewrite list_lookup_imap. Qed.

Lemma length_formatText start len name value q :
  List.length (Quill.contents (Quill.formatText start len name value q))
  = List.length (Quill.contents q).
Proof. unfold Quill.formatText. simpl. by rewrite length_imap. Qed.

Lemma selection_formatText start len name value q :
  Quill.selection (Quill.formatText start len name value q) = Quill.selection q.
Proof. done. Qed.

Lemma highlight_on_lookup c : formats (highlight_on c) !! "highlight" = Some "true".
Proof. unfold highlight_on, Quill.format_char. simpl. by rewrite lookup_insert_eq. Qed.

Lemma highlight_off_lookup c : formats (highlight_off c) !! "highlight" = None.
Proof. unfold highlight_off, Quill.format_char. simpl. by rewrite lookup_delete_eq. Qed.

Lemma highlight_on_on c : highlight_on (highlight_on c) = highlight_on c.
Proof.
  unfold highlight_on, Quill.format_char. simpl. f_equal. by rewrite insert_insert_eq.
Qed.

Lemma highlight_off_on c : highlight_off (highlight_on c) = highlight_off c.
Proof.
  unfold highlight_off, highlight_on, Quill.format_char. simpl. f_equal.
  by rewrite delete_insert_eq.
Qed.

Lemma highlight_off_off c : highlight_off (highlight_off c) = highlight_off c.
Proof.
  unfold highlight_off, Quill.format_char. simpl. f_equal.
  apply map_eq. intros k. rewrite !lookup_delete. by repeat case_decide.
Qed.

(** Formats other than the highlight are never touched. *)
Lemma highlight_on_other c name :
  name ≠ "highlight" → formats (highlight_on c) !! name = formats c !! name.
Proof.
  intros Hne. unfold highlight_on, Quill.format_char. simpl.
  by rewrite lookup_insert_ne.
Qed.

Lemma highlight_off_other c name :
  name ≠ "highlight" → formats (highlight_off c) !! name = formats c !! name.
Proof.
  intros Hne. unfold highlight_off, Quill.format_char. simpl.
  by rewrite lookup_delete_ne.
Qed.

Lemma highlighted_lookup doc i :
  highlighted doc i = true
  ↔ ∃ c, doc !! i = Some c ∧ is_Some (formats c !! "highlight").
Proof.
  unfold highlighted. destruct (doc !! i) as [c|].
  - rewrite bool_decide_eq_true. split.
    + intros Hc. by exists c.
    + by intros (c' & [= <-] & Hc).
  - split; [done | by intros (c' & [=] & _)].
Qed.

Lemma highlighted_length doc i : highlighted doc i = true → i < List.length doc.
Proof.
  rewrite highlighted_lookup. intros (c & Hc & _). by eapply lookup_lt_Some.
Qed.

End formatText_facts.

(** ** What one reconciliation does to the editor

    The loop over the reply touches nothing but the editor instance, and
    what it does there is a function of the reply alone: the elements are
    visited in order until one of them is not iterable, and each visited
    element that passes the guard is one formatting call. *)
Section reconciliation.

Implicit Types (q : Quill.Instance) (w : World) (elems : list Value).

Lemma with_quill_same w : with_quill (quill w) w = w.
Proof. by destruct w. Qed.

Lemma apply_tuple_run tuple w :
  apply_tuple tuple w
  = if iterable tuple
    then (inr tt, match tuple_span tuple with
                  | Some sp => with_quill (highlight_span (quill w) sp) w
                  | None => w
                  end)
    else (inl (TypeError "argument is not iterable"), w).
Proof.
  unfold apply_tuple, destructure_pair, iterable, tuple_span.
  destruct (Js.iterate tuple) as [vs|]; [|done].
  unfold mbind, M_bind, mret, M_ret. simpl.
  destruct (nth 0 vs VUndefined) as [| |b|s|s|l|o]; simpl; try done;
    destruct (nth 1 vs VUndefined) as [| |b'|n|s'|l'|o']; simpl; try done.
  by destruct (0 <? n)%Z.
Qed.

Lemma forEach_run elems w :
  forEach elems apply_tuple w
  = (loop_outcome elems,
     with_quill (foldl highlight_span (quill w) (applied_spans elems)) w).
Proof.
  revert w. induction elems as [|e rest IH]; intros w; simpl.
  - by rewrite with_quill_same.
  - unfold mbind, M_bind. rewrite apply_tuple_run.
    destruct (iterable e); simpl; [|by rewrite with_quill_same].
    rewrite IH. by destruct (tuple_span e).
Qed.

Lemma applyAnnotations_run elems w :
  quillRef_current w = true →
  applyAnnotations (VArr elems) w
  = (loop_outcome elems, with_quill (reconciled elems (quill w)) w).
Proof.
  intros Hcur. unfold applyAnnotations, get_quillRef_current, quill_get.
  unfold mbind, M_bind. simpl. rewrite Hcur. simpl.
  unfold quill_formatText. by rewrite forEach_run.
Qed.

Lemma applyAnnotations_skip result w :
  quillRef_current w && isArray result = false →
  applyAnnotations result w = (inr tt, w).
Proof.
  intros Hskip. unfold applyAnnotations, get_quillRef_current.
  unfold mbind, M_bind. simpl.
  destruct (quillRef_current w); [|done].
  destruct result; simpl in *; try discriminate; by rewrite ?andb_false_r.
Qed.

End reconciliation.

(** ** The document after a reconciliation, character by character *)
Section reconciled_document.

Implicit Types (q : Quill.Instance) (w : World) (elems : list Value)
  (S : list (Z * Z)) (i : nat).

Lemma lookup_clear_highlights q i :
  Quill.contents (clear_highlights q) !! i = highlight_off <$> Quill.contents q !! i.
Proof.
  unfold clear_highlights. rewrite lookup_formatText, length_getText.
  destruct (Quill.contents q !! i) as [c|] eqn:Hc; [|done]. simpl.
  by rewrite in_range_whole by (by eapply lookup_lt_Some).
Qed.

Lemma lookup_highlight_spans S q i :
  Quill.contents (foldl highlight_span q S) !! i
  = (λ c, if decide (Exists (λ sp, covers sp i) S) then highlight_on c else c)
      <$> Quill.contents q !! i.
Proof.
  induction S as [|sp S IH] using rev_ind.
  - change (foldl highlight_span q []) with q.
    destruct (decide (Exists (λ sp, covers sp i) [])) as [Hex|_];
      [by apply Exists_nil in Hex |].
    by destruct (Quill.contents q !! i).
  - rewrite foldl_snoc. unfold highlight_span at 1.
    rewrite lookup_formatText, IH.
    destruct (Quill.contents q !! i) as [c|]; [|done]. simpl. f_equal.
    destruct (Quill.in_range sp.1 sp.2 i) eqn:Hsp.
    + apply in_range_covers in Hsp.
      rewrite (decide_True (P := Exists _ (S ++ [sp])))
        by (apply Exists_app; right; by constructor).
      destruct (decide (Exists _ S)); [apply highlight_on_on | done].
    + assert (¬ covers sp i) as Hn by (rewrite <- in_range_covers; congruence).
      destruct (decide (Exists _ S)) as [Hs|Hs].
      * rewrite decide_True; [done | apply Exists_app; by left].
      * rewrite decide_False; [done |].
        rewrite Exists_app. intros [?|Hx]; [done |].
        apply Exists_cons in Hx as [? | Hx]; [done | by apply Exists_nil in Hx].
Qed.

Lemma lookup_reconciled elems q i :
  Quill.contents (reconciled elems q) !! i
  = (λ c, if decide (Exists (λ sp, covers sp i) (applied_spans elems))
          then highlight_on (highlight_off c) else highlight_off c)
      <$> Quill.contents q !! i.
Proof.
  unfold reconciled. rewrite lookup_highlight_spans, lookup_clear_highlights.
  by destruct (Quill.contents q !! i).
Qed.

Lemma length_reconciled elems q :
  List.length (Quill.contents (reconciled elems q)) = List.length (Quill.contents q).
Proof.
  unfold reconciled. generalize (applied_spans elems) as S.
  induction S as [|sp S IH] using rev_ind; simpl.
  - unfold clear_highlights. apply length_formatText.
  - rewrite foldl_snoc. unfold highlight_span at 1. by rewrite length_formatText.
Qed.

Lemma selection_reconciled elems q :
  Quill.selection (reconciled elems q) = Quill.selection q.
Proof.
  unfold reconciled. generalize (applied_spans elems) as S.
  induction S as [|sp S IH] using rev_ind; [done |].
  by rewrite foldl_snoc.
Qed.

(** The highlight state after a reconciliation: the characters of the
    text that some formatting call of the loop covers. *)
Lemma highlighted_reconciled elems q i :
  highlighted (Quill.contents (reconciled elems q)) i = true
  ↔ i < List.length (Quill.contents q)
    ∧ ∃ sp, sp ∈ applied_spans elems ∧ covers sp i.
Proof.
  rewrite highlighted_lookup, lookup_reconciled. split.
  - intros (c & Hc & Hhl).
    destruct (Quill.contents q !! i) as [c0|] eqn:H0; [|done].
    simpl in Hc. injection Hc as <-. split; [by eapply lookup_lt_Some |].
    destruct (decide _) as [Hex|_].
    + apply Exists_exists in Hex. done.
    + rewrite highlight_off_lookup in Hhl. by destruct Hhl.
  - intros (Hi & sp & Hsp & Hcov).
    destruct (lookup_lt_is_Some_2 _ _ Hi) as [c0 H0]. rewrite H0. simpl.
    eexists. split; [done |].
    rewrite decide_True by (apply Exists_exists; eauto).
    by rewrite highlight_on_lookup.
Qed.

(** A well-formed pair passes the guard exactly when its length is
    positive, and covers nothing otherwise. *)
Lemma applied_spans_json S :
  applied_spans (span_json <$> S) = filter (λ sp, (0 < sp.2)%Z) S.
Proof.
  induction S as [|[s l] S IH]; [done |].
  rewrite fmap_cons, filter_cons. simpl.
  unfold tuple_span. simpl. rewrite IH.
  destruct (0 <? l)%Z eqn:Hl.
  - apply Z.ltb_lt in Hl. by rewrite decide_True.
  - apply Z.ltb_ge in Hl. rewrite decide_False; [done | lia].
Qed.

Lemma covered_json S i :
  (∃ sp, sp ∈ applied_spans (span_json <$> S) ∧ covers sp i)
  ↔ ∃ sp, sp ∈ S ∧ covers sp i.
Proof.
  rewrite applied_spans_json. split.
  - intros (sp & Hsp & Hc). apply list_elem_of_filter in Hsp as [_ Hsp]. eauto.
  - intros (sp & Hsp & Hc). exists sp. split; [|done].
    apply list_elem_of_filter. split; [|done]. unfold covers in Hc. lia.
Qed.

Lemma loop_outcome_json S : loop_outcome (span_json <$> S) = inr tt.
Proof. induction S as [|sp S IH]; [done | by rewrite fmap_cons]. Qed.

End reconciled_document.

(** ** One run of [handleTextSubmit] *)
Section handleTextSubmit_runs.

Implicit Types (q : Quill.Instance) (w : World) (elems : list Value)
  (text : string) (result : Value).

#[local] Arguments applyAnnotations : simpl never.

Lemma handleTextSubmit_array elems text w :
  quillRef_current w = true →
  handleTextSubmit (replies (VArr elems)) text w
  = (inr tt,
     {| quill := reconciled elems (quill w);
        quillRef_current := true;
        trace := trace w ++ submit_events text (VArr elems) ++ loop_events elems |}).
Proof.
  intros Hcur.
  unfold handleTextSubmit, try_catch, fetch, response_json, replies,
    console_log, console_error, emit, loop_events.
  unfold mbind, M_bind, mret, M_ret. simpl.
  rewrite applyAnnotations_run by done. unfold with_quill. simpl.
  rewrite Hcur, <- !app_assoc. simpl.
  by destruct (loop_outcome elems) as [e|[]]; simpl; rewrite <- ?app_assoc.
Qed.

Lemma handleTextSubmit_skip result text w :
  quillRef_current w && isArray result = false →
  handleTextSubmit (replies result) text w
  = (inr tt, with_trace (trace w ++ submit_events text result) w).
Proof.
  intros Hskip.
  unfold handleTextSubmit, try_catch, fetch, response_json, replies,
    console_log, console_error, emit.
  unfold mbind, M_bind, mret, M_ret. simpl.
  rewrite applyAnnotations_skip by done. unfold with_trace. simpl.
  by rewrite <- !app_assoc.
Qed.

Lemma handleTextSubmit_failure reply e text w :
  transport_failure reply = Some e →
  handleTextSubmit reply text w
  = (inr tt, with_trace (trace w ++ failure_events text e) w).
Proof.
  intros Hfail.
  unfold handleTextSubmit, try_catch, fetch, response_json,
    console_log, console_error, emit.
  unfold mbind, M_bind, mret, M_ret, throw, with_trace.
  destruct reply as [e'|[[e'|v]]]; simpl in *; [| |done];
    injection Hfail as ->; by rewrite <- !app_assoc.
Qed.

(** Reconciling again changes nothing: the clear step undoes what the
    first pass set, and the loop sets it again. *)
Lemma reconciled_idempotent elems q :
  reconciled elems (reconciled elems q) = reconciled elems q.
Proof.
  assert (∀ q1 q2 : Quill.Instance,
    Quill.contents q1 = Quill.contents q2 →
    Quill.selection q1 = Quill.selection q2 → q1 = q2) as Heq.
  { intros [d1 s1] [d2 s2]; simpl; by intros -> ->. }
  apply Heq; [|by rewrite !selection_reconciled].
  apply list_eq. intros i. rewrite lookup_reconciled, lookup_reconciled.
  destruct (Quill.contents q !! i) as [c|]; [|done]. simpl. f_equal.
  destruct (decide _).
  - by rewrite highlight_off_on, highlight_off_off.
  - by rewrite highlight_off_off.
Qed.

End handleTextSubmit_runs.

(** * The claims *)

(** ** Reconciliation *)

(** C1 (coverage exactness).  For a list of disjoint, in-bounds spans, after
    the success path of [handleTextSubmit] a character is highlighted if and
    only if its index falls within one of the spans. *)
Theorem coverage_exactness (w : World) (text : string) (S : list (Z * Z)) (i : nat) :
  quillRef_current w = true →
  Forall (in_bounds (List.length (Quill.contents (quill w)))) S →
  disjoint_spans S →
  highlighted (document_after (handleTextSubmit (replies (spans_json S)) text) w) i = true
  ↔ ∃ sp, sp ∈ S ∧ covers sp i.
Proof.
  intros Hcur Hbounds _. unfold document_after, spans_json.
  rewrite handleTextSubmit_array by done. cbn [snd quill].
  rewrite highlighted_reconciled, covered_json. split; [by intros [_ ?] |].
  intros (sp & Hsp & Hcov). split; [|by eauto].
  rewrite Forall_forall in Hbounds. destruct (Hbounds sp Hsp) as (_ & _ & Hend).
  unfold covers in Hcov. lia.
Qed.

Lemma coverage_exactness_witness :
  let w := editor (plain "Hello world") None in
  let S := [(0, 5); (6, 5)]%Z in
  quillRef_current w = true
  ∧ Forall (in_bounds (List.length (Quill.contents (quill w)))) S
  ∧ disjoint_spans S
  ∧ (highlighted
       (document_after (handleTextSubmit (replies (spans_json S)) "Hello world") w) 7
     = true
     ↔ ∃ sp, sp ∈ S ∧ covers sp 7).
Proof.
  assert (Forall (in_bounds 11) [(0, 5); (6, 5)]%Z) as Hb
    by (repeat constructor; simpl; lia).
  assert (disjoint_spans [(0, 5); (6, 5)]%Z) as Hd
    by (simpl; repeat constructor; simpl; lia).
  split; [reflexivity |]. split; [exact Hb |]. split; [exact Hd |].
  exact (coverage_exactness (editor (plain "Hello world") None) "Hello world"
           [(0, 5); (6, 5)]%Z 7 eq_refl Hb Hd).
Defined.

(** C5 (full reset).  Whatever was highlighted before, reconciling with
    the empty span list leaves no character highlighted. *)
Theorem full_reset (w : World) (text : string) (i : nat) :
  quillRef_current w = true →
  highlighted (document_after (handleTextSubmit (replies (spans_json [])) text) w) i
  = false.
Proof.
  intros Hcur. apply not_true_is_false. unfold document_after, spans_json.
  rewrite handleTextSubmit_array by done. cbn [snd quill].
  rewrite highlighted_reconciled. intros (_ & sp & Hsp & _).
  by apply elem_of_nil in Hsp.
Qed.

Lemma full_reset_witness :
  let w := editor (highlight_on <$> plain "Hello world") None in
  quillRef_current w = true
  ∧ highlighted (Quill.contents (quill w)) 3 = true
  ∧ highlighted
      (document_after (handleTextSubmit (replies (spans_json [])) "Hello world") w) 3
    = false.
Proof.
  split; [reflexivity |]. split; [vm_compute; reflexivity |].
  exact (full_reset (editor (highlight_on <$> plain "Hello world") None)
           "Hello world" 3 eq_refl).
Defined.

(** C2, as stated, fails: the loop has no bounds check, so the span (8, 5)
    on a text of length 10 is handed to the engine, which clamps it; the
    characters 8 and 9 end up highlighted. *)
Lemma out_of_bounds_span_not_dropped :
  ¬ (∀ i : nat,
       highlighted
         (document_after (handleTextSubmit (replies (spans_json [(8, 5)%Z])) "0123456789")
            (editor (plain "0123456789") None)) i = false).
Proof. intros Hnone. specialize (Hnone 8). vm_compute in Hnone. discriminate. Qed.

(** C2 (amended).  A span that reaches past the end of the text or starts
    before it raises nothing and is not dropped: it is clamped.  After the
    reconciliation the highlighted characters are those of the text that
    the span or one of the other spans covers, and no error is logged. *)
Theorem out_of_bounds_span_clamped (w : World) (text : string)
    (S1 S2 : list (Z * Z)) (sp : Z * Z) (i : nat) :
  quillRef_current w = true →
  (sp.1 < 0 ∨ Z.of_nat (List.length (Quill.contents (quill w))) < sp.1 + sp.2)%Z →
  let submit := handleTextSubmit (replies (spans_json (S1 ++ sp :: S2))) text in
  outcome submit w = inr tt
  ∧ trace_after submit w
    = trace w ++ submit_events text (spans_json (S1 ++ sp :: S2))
  ∧ (highlighted (document_after submit w) i = true
     ↔ i < List.length (Quill.contents (quill w))
       ∧ (covers sp i ∨ ∃ sp', sp' ∈ S1 ++ S2 ∧ covers sp' i)).
Proof.
  intros Hcur _ submit. unfold submit, outcome, trace_after, document_after, spans_json.
  rewrite handleTextSubmit_array by done. cbn [fst snd quill trace].
  split; [done |]. split.
  - unfold loop_events. by rewrite loop_outcome_json, app_nil_r.
  - rewrite highlighted_reconciled, covered_json.
    apply and_iff_compat_l. split.
    + intros (sp' & Hin & Hcov). apply elem_of_app in Hin as [Hin|Hin].
      * right. exists sp'. split; [apply elem_of_app; by left | done].
      * apply elem_of_cons in Hin as [->|Hin]; [by left |].
        right. exists sp'. split; [apply elem_of_app; by right | done].
    + intros [Hcov | (sp' & Hin & Hcov)].
      * exists sp. split; [|done]. apply elem_of_app. right. by left.
      * exists sp'. split; [|done].
        apply elem_of_app in Hin as [Hin|Hin]; apply elem_of_app;
          [by left | right; by right].
Qed.

Lemma out_of_bounds_span_clamped_witness :
  let w := editor (plain "0123456789") None in
  let submit := handleTextSubmit (replies (spans_json ([] ++ (8, 5)%Z :: []))) "0123456789" in
  quillRef_current w = true
  ∧ (8 < 0 ∨ Z.of_nat (List.length (Quill.contents (quill w))) < 8 + 5)%Z
  ∧ outcome submit w = inr tt
  ∧ trace_after submit w
    = trace w ++ submit_events "0123456789" (spans_json ([] ++ (8, 5)%Z :: []))
  ∧ (highlighted (document_after submit w) 9 = true
     ↔ 9 < List.length (Quill.contents (quill w))
       ∧ (covers (8, 5)%Z 9 ∨ ∃ sp', sp' ∈ [] ++ [] ∧ covers sp' 9)).
Proof.
  assert (8 < 0 ∨ Z.of_nat 10 < 8 + 5)%Z as Hout by (right; lia).
  split; [reflexivity |]. split; [exact Hout |].
  exact (out_of_bounds_span_clamped (editor (plain "0123456789") None) "0123456789"
           [] [] (8, 5)%Z 9 eq_refl Hout).
Defined.

(** ** The round trip *)

(** C3, as stated, fails twice over: for the body [{}] nothing is
    reported, and for an array that is no span list the clear step runs,
    so a highlight that was there is gone. *)
Lemma malformed_body_not_reported_or_mutating :
  let doc := highlight_on <$> plain "Hello world" in
  (¬ ∃ ev, ev ∈ trace_after (handleTextSubmit (replies (VObj [])) "Hello world")
                   (editor doc None)
           ∧ is_error ev = true)
  ∧ highlighted doc 0 = true
  ∧ highlighted
      (document_after (handleTextSubmit (replies (VArr [VStr "ab"])) "Hello world")
         (editor doc None)) 0 = false.
Proof.
  split; [|split; vm_compute; reflexivity].
  intros (ev & Hin & Herr). vm_compute in Hin.
  repeat (apply elem_of_cons in Hin as [->|Hin]; [discriminate Herr |]).
  by apply elem_of_nil in Hin.
Qed.

(** C3 (amended).  A body that is not an array leaves the editor exactly
    as it was, and the handler returns after logging the body: no error
    is logged. *)
Theorem non_array_body_ignored (w : World) (text : string) (result : Value) :
  isArray result = false →
  let submit := handleTextSubmit (replies result) text in
  quill (submit w).2 = quill w
  ∧ (∀ i, highlighted (document_after submit w) i = highlighted (Quill.contents (quill w)) i)
  ∧ outcome submit w = inr tt
  ∧ trace_after submit w = trace w ++ submit_events text result
  ∧ Forall (λ ev, is_error ev = false) (submit_events text result).
Proof.
  intros Hna submit. unfold submit, outcome, trace_after, document_after.
  rewrite handleTextSubmit_skip by (rewrite Hna; apply andb_false_r).
  cbn [fst snd]. repeat split; by repeat constructor.
Qed.

Lemma non_array_body_ignored_witness :
  let w := editor (highlight_on <$> plain "Hello world") None in
  let submit := handleTextSubmit (replies (VObj [])) "Hello world" in
  isArray (VObj []) = false
  ∧ quill (submit w).2 = quill w
  ∧ (∀ i, highlighted (document_after submit w) i = highlighted (Quill.contents (quill w)) i)
  ∧ outcome submit w = inr tt
  ∧ trace_after submit w = trace w ++ submit_events "Hello world" (VObj [])
  ∧ Forall (λ ev, is_error ev = false) (submit_events "Hello world" (VObj [])).
Proof.
  split; [reflexivity |].
  exact (non_array_body_ignored (editor (highlight_on <$> plain "Hello world") None)
           "Hello world" (VObj []) eq_refl).
Defined.

(** C4, as stated, fails: the error is not reported to the caller.  The
    catch block logs it and returns, so the caller of [handleTextSubmit]
    sees the normal return it sees after a successful round trip. *)
Lemma transport_failure_not_reported_to_caller :
  let w := editor (plain "Hello world") None in
  let e := NetworkError "Failed to fetch" in
  let failed := handleTextSubmit (FetchRejects e) "Hello world" in
  let succeeded := handleTextSubmit (replies (spans_json [(0, 5)%Z])) "Hello world" in
  transport_failure (FetchRejects e) = Some e
  ∧ outcome failed w ≠ inl e
  ∧ outcome failed w = outcome succeeded w.
Proof. repeat split; vm_compute; congruence. Qed.

(** C4 (amended).  When the request or the decoding of the body throws, the
    editor is left as it was, the error is logged with [console.error] and
    not passed on to the caller (the handler returns normally), and the
    round trip has sent its one request and no other. *)
Theorem transport_failure_logged_not_raised (w : World) (text : string)
    (reply : Reply) (e : Exn) :
  transport_failure reply = Some e →
  let submit := handleTextSubmit reply text in
  quill (submit w).2 = quill w
  ∧ outcome submit w = inr tt
  ∧ trace_after submit w = trace w ++ failure_events text e
  ∧ ConsoleError "Error calling feedback API:" e ∈ failure_events text e
  ∧ List.length (filter (λ ev, is_fetch ev = true) (failure_events text e)) = 1.
Proof.
  intros Hfail submit. unfold submit, trace_after, outcome.
  rewrite (handleTextSubmit_failure _ e) by done. cbn [fst snd].
  repeat split. unfold failure_events. set_solver.
Qed.

Lemma transport_failure_logged_not_raised_witness :
  let w := editor (highlight_on <$> plain "Hello world") None in
  let e := NetworkError "Failed to fetch" in
  let submit := handleTextSubmit (FetchRejects e) "Hello world" in
  transport_failure (FetchRejects e) = Some e
  ∧ quill (submit w).2 = quill w
  ∧ outcome submit w = inr tt
  ∧ trace_after submit w = trace w ++ failure_events "Hello world" e
  ∧ ConsoleError "Error calling feedback API:" e ∈ failure_events "Hello world" e
  ∧ List.length (filter (λ ev, is_fetch ev = true) (failure_events "Hello world" e)) = 1.
Proof.
  split; [reflexivity |].
  exact (transport_failure_logged_not_raised
           (editor (highlight_on <$> plain "Hello world") None) "Hello world"
           (FetchRejects (NetworkError "Failed to fetch"))
           (NetworkError "Failed to fetch") eq_refl).
Defined.

(** C6 (idempotence).  Submitting twice in a row with the same span list in
    the reply, and no edit in between, leaves the editor as one submission
    does, whatever was highlighted at the start. *)
Theorem reconciliation_idempotent (w : World) (text : string) (S : list (Z * Z)) :
  let submit := handleTextSubmit (replies (spans_json S)) text in
  quill (submit (submit w).2).2 = quill (submit w).2
  ∧ ∀ i, highlighted (document_after submit (submit w).2) i
         = highlighted (document_after submit w) i.
Proof.
  intros submit.
  assert (quill (submit (submit w).2).2 = quill (submit w).2) as Heq.
  { unfold submit, spans_json. destruct (quillRef_current w) eqn:Hcur.
    - rewrite (handleTextSubmit_array _ _ w) by done. cbn [snd].
      rewrite handleTextSubmit_array by done. cbn [snd quill].
      apply reconciled_idempotent.
    - rewrite (handleTextSubmit_skip _ _ w) by (by rewrite Hcur). cbn [snd].
      by rewrite handleTextSubmit_skip by (by simpl; rewrite Hcur). }
  split; [done |]. intros i. unfold document_after. by rewrite Heq.
Qed.

(** C8 (order independence).  Two replies that list the same spans in a
    different order leave the same document. *)
Theorem span_order_irrelevant (w : World) (text : string) (S S' : list (Z * Z)) :
  S ≡ₚ S' →
  document_after (handleTextSubmit (replies (spans_json S)) text) w
  = document_after (handleTextSubmit (replies (spans_json S')) text) w.
Proof.
  intros Hperm. unfold document_after, spans_json.
  destruct (quillRef_current w) eqn:Hcur.
  - rewrite !handleTextSubmit_array by done. cbn [snd quill].
    apply list_eq. intros i. rewrite !lookup_reconciled.
    destruct (Quill.contents (quill w) !! i) as [c|]; [|done]. simpl. f_equal.
    apply decide_ext. rewrite !Exists_exists, !covered_json.
    by setoid_rewrite Hperm.
  - by rewrite !handleTextSubmit_skip by (by rewrite Hcur).
Qed.

Lemma span_order_irrelevant_witness :
  let w := editor (plain "Hello world") None in
  [(0, 5); (6, 5)]%Z ≡ₚ [(6, 5); (0, 5)]%Z
  ∧ document_after
      (handleTextSubmit (replies (spans_json [(0, 5); (6, 5)]%Z)) "Hello world") w
    = document_after
        (handleTextSubmit (replies (spans_json [(6, 5); (0, 5)]%Z)) "Hello world") w.
Proof.
  assert ([(0, 5); (6, 5)]%Z ≡ₚ [(6, 5); (0, 5)]%Z) as Hperm by apply perm_swap.
  split; [exact Hperm |].
  exact (span_order_irrelevant (editor (plain "Hello world") None) "Hello world"
           _ _ Hperm).
Defined.

(** C10, as stated, fails: an element that is not iterable makes the
    parameter pattern throw, the loop ends there, and the valid span after
    it is never applied. *)
Lemma garbage_element_stops_the_loop :
  let submit :=
    handleTextSubmit (replies (VArr [VNull; span_json (0, 5)%Z])) "Hello world" in
  let w := editor (plain "Hello world") None in
  tuple_span (span_json (0, 5)%Z) = Some (0, 5)%Z
  ∧ covers (0, 5)%Z 0
  ∧ highlighted (document_after submit w) 0 = false
  ∧ ConsoleError "Error calling feedback API:" (TypeError "argument is not iterable")
    ∈ trace_after submit w.
Proof.
  repeat split; try (vm_compute; congruence).
  vm_compute. set_solver.
Qed.

(** C10 (amended).  When every element of the array is iterable (an array or
    a string), the elements are validated one by one: the clear step runs,
    an element that fails the guard makes no formatting call (the callback
    returns with nothing changed), every element that passes it is
    applied, and no error is logged. *)
Theorem elements_validated_independently (w : World) (text : string)
    (elems : list Value) (i : nat) :
  quillRef_current w = true →
  Forall (λ e, iterable e = true) elems →
  let submit := handleTextSubmit (replies (VArr elems)) text in
  (∀ e w', e ∈ elems → tuple_span e = None → apply_tuple e w' = (inr tt, w'))
  ∧ trace_after submit w = trace w ++ submit_events text (VArr elems)
  ∧ (highlighted (document_after submit w) i = true
     ↔ i < List.length (Quill.contents (quill w))
       ∧ ∃ e sp, e ∈ elems ∧ tuple_span e = Some sp ∧ covers sp i).
Proof.
  intros Hcur Hiter submit.
  assert (applied_spans elems = omap tuple_span elems ∧ loop_outcome elems = inr tt)
    as [Happlied Hloop].
  { induction Hiter as [|e rest He _ [IH1 IH2]]; [done |]. simpl.
    rewrite He, IH1, IH2. split; [|done]. by destruct (tuple_span e). }
  split.
  { intros e w' He Hnone. rewrite apply_tuple_run, Hnone.
    rewrite Forall_forall in Hiter. by rewrite (Hiter e He). }
  unfold submit, trace_after, document_after.
  rewrite handleTextSubmit_array by done. cbn [snd quill trace]. split.
  - unfold loop_events. by rewrite Hloop, app_nil_r.
  - rewrite highlighted_reconciled, Happlied. apply and_iff_compat_l. split.
    + intros (sp & Hsp & Hcov). apply list_elem_of_omap in Hsp as (e & He & Hspan).
      eauto.
    + intros (e & sp & He & Hspan & Hcov). exists sp. split; [|done].
      apply list_elem_of_omap. eauto.
Qed.

Lemma elements_validated_independently_witness :
  let w := editor (highlight_on <$> plain "Hello world") None in
  let elems := [VArr [VStr "0"; VNum 5]; VStr "ab"; VArr []; span_json (6, 5)%Z] in
  let submit := handleTextSubmit (replies (VArr elems)) "Hello world" in
  quillRef_current w = true
  ∧ Forall (λ e, iterable e = true) elems
  ∧ (∀ e w', e ∈ elems → tuple_span e = None → apply_tuple e w' = (inr tt, w'))
  ∧ trace_after submit w = trace w ++ submit_events "Hello world" (VArr elems)
  ∧ (highlighted (document_after submit w) 7 = true
     ↔ 7 < List.length (Quill.contents (quill w))
       ∧ ∃ e sp, e ∈ elems ∧ tuple_span e = Some sp ∧ covers sp 7).
Proof.
  assert (Forall (λ e, iterable e = true)
            [VArr [VStr "0"; VNum 5]; VStr "ab"; VArr []; span_json (6, 5)%Z]) as Hiter
    by (repeat constructor).
  split; [reflexivity |]. split; [exact Hiter |].
  exact (elements_validated_independently
           (editor (highlight_on <$> plain "Hello world") None) "Hello world"
           _ 7 eq_refl Hiter).
Defined.

(** ** Runs and leaves *)
Section runs_facts.

Implicit Types (doc : Document) (rs : list (gmap string string * list ascii))
  (r : gmap string string * list ascii) (f : gmap string string) (i j : nat).

Lemma expand_app rs1 rs2 : expand (rs1 ++ rs2) = expand rs1 ++ expand rs2.
Proof. induction rs1 as [|r rs1 IH]; [done |]. simpl. by rewrite IH, app_assoc. Qed.

Lemma expand_runs doc : expand (Quill.runs doc) = doc.
Proof.
  induction doc as [|[a f] rest IH]; [done |]. simpl.
  destruct (Quill.runs rest) as [|[f' s] rs]; simpl in *.
  - by rewrite <- IH.
  - case_decide as Hf; simpl; rewrite <- IH; [by subst | done].
Qed.

Lemma runs_alternating doc : alternating (Quill.runs doc).
Proof.
  induction doc as [|[a f] rest IH]; [done |]. simpl.
  destruct (Quill.runs rest) as [|[f' s] rs]; [done |].
  case_decide as Hf; simpl in *; [by subst | done].
Qed.

Lemma runs_nonempty doc : Forall (λ r, r.2 ≠ []) (Quill.runs doc).
Proof.
  induction doc as [|[a f] rest IH]; [done |]. simpl.
  destruct (Quill.runs rest) as [|[f' s] rs]; [by repeat constructor |].
  apply Forall_cons in IH as [Hs IH].
  case_decide; repeat (constructor; [done |]); done.
Qed.

Lemma length_run_chars r : List.length (run_chars r) = List.length r.2.
Proof. unfold run_chars. by rewrite length_fmap. Qed.

Lemma lookup_run_chars r j :
  j < List.length r.2 → formats <$> run_chars r !! j = Some r.1.
Proof.
  intros Hj. unfold run_chars. rewrite list_lookup_fmap.
  destruct (lookup_lt_is_Some_2 _ _ Hj) as [a ->]. done.
Qed.

(** The leaf found for an index is one of the runs, at its offset. *)
Lemma find_leaf_split rs off i leaf :
  Quill.find_leaf off rs i = Some leaf →
  ∃ pre post,
    rs = pre ++ (leaf_formats leaf, text leaf) :: post
    ∧ leaf_offset leaf = off + List.length (expand pre)
    ∧ (List.length (expand pre) ≤ i
       ≤ List.length (expand pre) + List.length (text leaf))%nat.
Proof.
  revert off i. induction rs as [|[f s] rs IH]; intros off i; simpl; [done |].
  destruct (i <=? List.length s)%nat eqn:Hi.
  - intros [= <-]. exists [], rs. simpl. apply Nat.leb_le in Hi.
    repeat split; [lia | lia | done].
  - apply Nat.leb_gt in Hi. intros Hfind.
    destruct (IH _ _ Hfind) as (pre & post & -> & Hoff & Hrange).
    exists ((f, s) :: pre), post. simpl.
    rewrite length_app, length_run_chars. simpl. repeat split; lia.
Qed.

Lemma find_leaf_total rs off i :
  i < List.length (expand rs) → is_Some (Quill.find_leaf off rs i).
Proof.
  revert off i. induction rs as [|[f s] rs IH]; intros off i; simpl; [lia |].
  rewrite length_app, length_run_chars. simpl. intros Hi.
  destruct (i <=? List.length s)%nat eqn:Hlt; [done |].
  apply Nat.leb_gt in Hlt. apply IH. lia.
Qed.

Lemma alternating_suffix rs1 rs2 : alternating (rs1 ++ rs2) → alternating rs2.
Proof.
  induction rs1 as [|r rs1 IH]; [done |]. simpl. intros [_ Halt]. by apply IH.
Qed.

End runs_facts.

Section leaf_facts.

Implicit Types (q : Quill.Instance) (doc : Document) (leaf : Leaf)
  (f : gmap string string) (i j : nat).

(** The leaf this engine resolves for an index is a run that contains the
    index, its ends included. *)
Lemma getLeaf_is_run q i leaf :
  Quill.getLeaf i q = Some leaf →
  is_run (Quill.contents q) (leaf_offset leaf) (List.length (text leaf))
    (leaf_formats leaf)
  ∧ (leaf_offset leaf ≤ i ≤ leaf_offset leaf + List.length (text leaf))%nat.
Proof.
  unfold Quill.getLeaf. intros Hfind.
  destruct (find_leaf_split _ _ _ _ Hfind) as (pre & post & Hrs & Hoff & Hrange).
  pose proof (runs_alternating (Quill.contents q)) as Halt.
  pose proof (runs_nonempty (Quill.contents q)) as Hne.
  rewrite <- (expand_runs (Quill.contents q)).
  rewrite Hrs in *. clear Hrs Hfind. simpl in Hoff. rewrite Hoff.
  assert (0 < List.length (text leaf)) as Hpos.
  { apply Forall_app in Hne as [_ Hne]. apply Forall_cons in Hne as [Hr _].
    simpl in Hr. destruct (text leaf); [done | simpl; lia]. }
  set (r := (leaf_formats leaf, text leaf)) in *.
  rewrite expand_app. simpl.
  split; [|lia]. unfold is_run. split; [lia |]. split; [|split].
  - intros j Hj. rewrite lookup_app_r by lia.
    rewrite lookup_app_l by (rewrite length_run_chars; simpl; lia).
    apply (lookup_run_chars r). simpl. lia.
  - intros j Hj. rewrite lookup_app_l by lia.
    destruct pre as [|r0 pre' _] using rev_ind; [simpl in Hj; lia |].
    rewrite <- app_assoc in Halt. apply alternating_suffix in Halt as [Hdiff _].
    apply Forall_app in Hne as [Hne _]. apply Forall_app in Hne as [_ Hne].
    apply Forall_cons in Hne as [Hr0 _].
    assert (0 < List.length r0.2) as Hlen by (destruct (r0.2); [done | simpl; lia]).
    rewrite expand_app in *. simpl in *. rewrite app_nil_r in *.
    rewrite length_app, length_run_chars in Hj.
    rewrite lookup_app_r by lia.
    rewrite lookup_run_chars by lia. congruence.
  - rewrite lookup_app_r by lia.
    rewrite lookup_app_r by (rewrite length_run_chars; simpl; lia).
    rewrite length_run_chars. simpl.
    replace (_ - _ - _) with 0 by lia.
    apply alternating_suffix in Halt.
    apply Forall_app in Hne as [_ Hne]. apply Forall_cons in Hne as [_ Hne].
    destruct post as [|r2 post']; [done |]. simpl in Halt. destruct Halt as [Hdiff _].
    apply Forall_cons in Hne as [Hr2 _].
    assert (0 < List.length r2.2) as Hlen by (destruct (r2.2); [done | simpl; lia]).
    simpl. rewrite lookup_app_l by (rewrite length_run_chars; lia).
    rewrite lookup_run_chars by lia. congruence.
Qed.

Lemma getLeaf_total q i :
  i < List.length (Quill.contents q) → is_Some (Quill.getLeaf i q).
Proof.
  intros Hi. apply find_leaf_total. by rewrite expand_runs.
Qed.

(** There is one run around an index. *)
Lemma is_run_unique doc i a n f a' n' f' :
  is_run doc a n f → is_run doc a' n' f' →
  a ≤ i < a + n → a' ≤ i < a' + n' →
  a = a' ∧ n = n' ∧ f = f'.
Proof.
  intros (Hn & Hin & Hl & Hr) (Hn' & Hin' & Hl' & Hr') Hi Hi'.
  assert (f = f') as <-.
  { pose proof (Hin i Hi) as H1. pose proof (Hin' i Hi') as H2. congruence. }
  assert (a = a') as <-.
  { destruct (decide (a < a')) as [Hlt|Hge].
    - destruct a' as [|p]; [lia |].
      exfalso. apply (Hl' p); [lia |]. apply Hin. lia.
    - destruct (decide (a' < a)) as [Hlt|Hge']; [|lia].
      destruct a as [|p]; [lia |].
      exfalso. apply (Hl p); [lia |]. apply Hin'. lia. }
  split; [done |]. split; [|done].
  destruct (decide (n < n')) as [Hlt|Hge].
  - exfalso. apply Hr. apply Hin'. lia.
  - destruct (decide (n' < n)) as [Hlt|Hge']; [|lia].
    exfalso. apply Hr'. apply Hin. lia.
Qed.

(** This engine meets the contract. *)
Lemma getLeaf_resolves_runs : resolves_runs Quill.getLeaf.
Proof.
  intros i q. split; [apply getLeaf_total | apply getLeaf_is_run].
Qed.

(** A leaf resolved for an index inside a run is that run, unless the
    index is the start of the run and another run ends there. *)
Lemma resolved_leaf_is_the_run doc i a n f a' n' f' :
  is_run doc a n f → is_run doc a' n' f' →
  a ≤ i < a + n → a < i ∨ a = 0 →
  (a' ≤ i ≤ a' + n')%nat →
  a' = a ∧ n' = n.
Proof.
  intros Hrun Hrun' Hi Hstart Hi'.
  destruct (decide (i < a' + n')) as [Hlt|Hend].
  - destruct (is_run_unique doc i a n f a' n' f' Hrun Hrun' Hi) as (-> & -> & _);
      [lia | done].
  - exfalso. destruct Hrun as (Hn & Hin & _ & _).
    destruct Hrun' as (Hn' & Hin' & _ & Hr').
    assert (i = a' + n') as -> by lia.
    assert (a < a' + n') as Hlt by (destruct Hstart; lia).
    apply Hr'. rewrite (Hin (a' + n')) by lia.
    assert (formats <$> doc !! (a' + n' - 1) = Some f) as H1 by (apply Hin; lia).
    assert (formats <$> doc !! (a' + n' - 1) = Some f') as H2 by (apply Hin'; lia).
    congruence.
Qed.

End leaf_facts.

(** ** The click listener *)

Lemma onClick_run (getLeaf : Quill.Resolver) (e : MouseEvent) (w : World)
    (range : Range) (leaf : Leaf) :
  classList_contains (target_classList e) HighlightBlot.className = true →
  Quill.getSelection (quill w) = Some range →
  getLeaf (range_index range) (quill w) = Some leaf →
  onClick getLeaf e w
  = (inr tt,
     with_quill
       (Quill.formatText (Z.of_nat (leaf_offset leaf))
          (Z.of_nat (List.length (text leaf))) "highlight" false (quill w)) w).
Proof.
  intros Hcls Hsel Hleaf. unfold onClick. rewrite Hcls.
  unfold mbind, M_bind, quill_get. rewrite Hsel, Hleaf. done.
Qed.

(** A click with the caret in a run, and not at a start of the run where
    another run ends, removes the highlight over that run. *)
Lemma onClick_dismisses_run (getLeaf : Quill.Resolver) (e : MouseEvent) (w : World)
    (range : Range) (runStart runLength : nat) (f : gmap string string) :
  resolves_runs getLeaf →
  classList_contains (target_classList e) "ql-highlight" = true →
  Quill.getSelection (quill w) = Some range →
  is_run (Quill.contents (quill w)) runStart runLength f →
  runStart ≤ range_index range < runStart + runLength →
  runStart < range_index range ∨ runStart = 0 →
  onClick getLeaf e w
  = (inr tt,
     with_quill
       (Quill.formatText (Z.of_nat runStart) (Z.of_nat runLength)
          "highlight" false (quill w)) w).
Proof.
  intros Hres Hcls Hsel Hrun Hidx Hstart.
  assert (range_index range < List.length (Quill.contents (quill w))) as Hlt.
  { destruct Hrun as (_ & Hin & _). specialize (Hin _ Hidx).
    destruct (Quill.contents (quill w) !! range_index range) eqn:Hc; [|done].
    by eapply lookup_lt_Some. }
  destruct (Hres (range_index range) (quill w)) as [Htotal Hsound].
  destruct (Htotal Hlt) as [leaf Hleaf].
  destruct (Hsound leaf Hleaf) as [Hrun' Hidx'].
  destruct (resolved_leaf_is_the_run _ _ _ _ _ _ _ _ Hrun Hrun' Hidx Hstart Hidx')
    as [Hs Hl].
  rewrite (onClick_run getLeaf e w range leaf) by done. by rewrite Hs, Hl.
Qed.




(** C9.  A click on a highlighted element while the editor reports no
    selection changes nothing, whatever the engine would resolve. *)
Theorem click_without_selection (getLeaf : Quill.Resolver) (e : MouseEvent) (w : World) :
  classList_contains (target_classList e) "ql-highlight" = true →
  Quill.getSelection (quill w) = None →
  onClick getLeaf e w = (inr tt, w)
  ∧ ∀ i, highlighted (document_after (onClick getLeaf e) w) i
         = highlighted (Quill.contents (quill w)) i.
Proof.
  intros Hcls Hsel.
  assert (onClick getLeaf e w = (inr tt, w)) as Hrun.
  { unfold onClick. change HighlightBlot.className with "ql-highlight".
    rewrite Hcls. unfold mbind, M_bind, quill_get. by rewrite Hsel. }
  split; [done |]. intros i. unfold document_after. by rewrite Hrun.
Qed.

Lemma click_without_selection_witness :
  let e := {| target_classList := ["ql-highlight"] |} in
  let w := editor (highlight_on <$> plain "Hello world") None in
  classList_contains (target_classList e) "ql-highlight" = true
  ∧ Quill.getSelection (quill w) = None
  ∧ onClick Quill.getLeaf e w = (inr tt, w)
  ∧ ∀ i, highlighted (document_after (onClick Quill.getLeaf e) w) i
         = highlighted (Quill.contents (quill w)) i.
Proof.
  split; [reflexivity |]. split; [reflexivity |].
  exact (click_without_selection Quill.getLeaf {| target_classList := ["ql-highlight"] |}
           (editor (highlight_on <$> plain "Hello world") None) eq_refl eq_refl).
Defined.

(** * Further properties of the handlers *)

(** ** Every way a submission can go *)
Section submission_cases.

Implicit Types (q : Quill.Instance) (w : World) (elems : list Value)
  (text : string) (reply : Reply).

(** A submission ends in one of three ways: the round trip fails, the body
    is skipped, or the body is an array and the editor is reconciled. *)
Lemma handleTextSubmit_cases reply text w :
  (∃ e, handleTextSubmit reply text w
        = (inr tt, with_trace (trace w ++ failure_events text e) w))
  ∨ (∃ result, handleTextSubmit reply text w
               = (inr tt, with_trace (trace w ++ submit_events text result) w))
  ∨ (∃ elems, quillRef_current w = true
              ∧ handleTextSubmit reply text w
                = (inr tt,
                   {| quill := reconciled elems (quill w);
                      quillRef_current := true;
                      trace := trace w ++ submit_events text (VArr elems)
                                 ++ loop_events elems |})).
Proof.
  destruct (transport_failure reply) as [e|] eqn:Hfail.
  - left. exists e. by apply handleTextSubmit_failure.
  - destruct reply as [e|[[e|result]]]; [done | done |].
    fold (replies result).
    destruct (quillRef_current w && isArray result) eqn:Hguard.
    + right. right. apply andb_true_iff in Hguard as [Hcur Harr].
      destruct result; try done. eexists. split; [done |].
      by apply handleTextSubmit_array.
    + right. left. exists result. by apply handleTextSubmit_skip.
Qed.

Lemma loop_events_errors elems :
  filter (λ ev, is_fetch ev = true) (loop_events elems) = [].
Proof. unfold loop_events. by destruct (loop_outcome elems). Qed.

(** A second reconciliation forgets the first. *)
Lemma reconciled_overrides elems1 elems2 q :
  reconciled elems2 (reconciled elems1 q) = reconciled elems2 q.
Proof.
  assert (∀ q1 q2 : Quill.Instance,
    Quill.contents q1 = Quill.contents q2 →
    Quill.selection q1 = Quill.selection q2 → q1 = q2) as Heq.
  { intros [d1 s1] [d2 s2]; simpl; by intros -> ->. }
  apply Heq; [|by rewrite !selection_reconciled].
  apply list_eq. intros i. rewrite !lookup_reconciled.
  destruct (Quill.contents q !! i) as [c|]; [|done]. simpl. f_equal.
  assert (highlight_off
            (if decide (Exists (λ sp, covers sp i) (applied_spans elems1))
             then highlight_on (highlight_off c) else highlight_off c)
          = highlight_off c) as ->; [|done].
  destruct (decide _).
  - by rewrite highlight_off_on, highlight_off_off.
  - by rewrite highlight_off_off.
Qed.

Lemma same_but_highlight_refl (c : Char) : same_but_highlight c c.
Proof. by split. Qed.

Lemma same_but_highlight_off (c : Char) : same_but_highlight (highlight_off c) c.
Proof. split; [done |]. intros name Hne. by apply highlight_off_other. Qed.

Lemma same_but_highlight_on_off (c : Char) :
  same_but_highlight (highlight_on (highlight_off c)) c.
Proof.
  split; [done |]. intros name Hne.
  by rewrite highlight_on_other, highlight_off_other.
Qed.

(** Characters keep their text and their other formats through a
    reconciliation. *)
Lemma reconciled_same_but_highlight elems q i c' :
  Quill.contents (reconciled elems q) !! i = Some c' →
  ∃ c, Quill.contents q !! i = Some c ∧ same_but_highlight c' c.
Proof.
  rewrite lookup_reconciled.
  destruct (Quill.contents q !! i) as [c|]; [|done]. simpl.
  intros [= <-]. exists c. split; [done |].
  destruct (decide _);
    [apply same_but_highlight_on_off | apply same_but_highlight_off].
Qed.

Lemma getText_reconciled elems q :
  Quill.getText (reconciled elems q) = Quill.getText q.
Proof.
  unfold Quill.getText. f_equal. apply list_eq. intros i.
  rewrite !list_lookup_fmap, lookup_reconciled.
  destruct (Quill.contents q !! i) as [c|]; [|done]. simpl.
  by destruct (decide _).
Qed.

End submission_cases.

(** ** Submissions *)

Lemma new_events_app (m : M unit) (w : World) (evs : list Event) :
  trace_after m w = trace w ++ evs → new_events m w = evs.
Proof. intros Heq. unfold new_events. rewrite Heq. apply drop_app_length. Qed.

(** X1.  A submission never throws, whatever comes back: the promise of
    [handleTextSubmit] always resolves. *)
Theorem submit_never_throws (reply : Reply) (text : string) (w : World) :
  outcome (handleTextSubmit reply text) w = inr tt.
Proof.
  unfold outcome.
  destruct (handleTextSubmit_cases reply text w)
    as [(e & ->) | [(result & ->) | (elems & _ & ->)]]; done.
Qed.

(** X2.  Whatever comes back, a submission only adds to the trace, and what
    it adds holds exactly one request: a POST of the submitted text to the
    feedback URL. *)
Theorem submit_sends_one_request (reply : Reply) (text : string) (w : World) :
  let submit := handleTextSubmit reply text in
  trace_after submit w = trace w ++ new_events submit w
  ∧ filter (λ ev, is_fetch ev = true) (new_events submit w)
    = [FetchCall FEEDBACK_URL "POST" text].
Proof.
  intros submit.
  assert (∃ evs, trace_after submit w = trace w ++ evs
                 ∧ filter (λ ev, is_fetch ev = true) evs
                   = [FetchCall FEEDBACK_URL "POST" text]) as (evs & Heq & Hf).
  { unfold submit, trace_after.
    destruct (handleTextSubmit_cases reply text w)
      as [(e & ->) | [(result & ->) | (elems & _ & ->)]]; cbn [snd trace with_trace].
    - by eexists.
    - by eexists.
    - eexists. split; [done |]. by rewrite filter_app, loop_events_errors. }
  by rewrite (new_events_app _ _ _ Heq).
Qed.

(** X3.  Whatever comes back, a submission changes neither the text, nor
    the selection, nor any format other than the highlight. *)
Theorem submit_keeps_text_and_formats (reply : Reply) (text : string) (w : World) :
  let w' := (handleTextSubmit reply text w).2 in
  Quill.getText (quill w') = Quill.getText (quill w)
  ∧ Quill.selection (quill w') = Quill.selection (quill w)
  ∧ quillRef_current w' = quillRef_current w
  ∧ ∀ i c', Quill.contents (quill w') !! i = Some c' →
      ∃ c, Quill.contents (quill w) !! i = Some c ∧ same_but_highlight c' c.
Proof.
  destruct (handleTextSubmit_cases reply text w)
    as [(e & ->) | [(result & ->) | (elems & Hcur & ->)]]; cbn [snd quill with_trace].
  - repeat split; try done. intros i c' Hc. exists c'. by split.
  - repeat split; try done. intros i c' Hc. exists c'. by split.
  - split; [apply getText_reconciled |]. split; [apply selection_reconciled |].
    split; [done |]. intros i c'. apply reconciled_same_but_highlight.
Qed.

(** X4.  A reply that arrives after the editor was unmounted finds the ref
    null and leaves the editor instance as it was, whatever the reply. *)
Theorem detached_reply_ignored (reply : Reply) (text : string) (w : World) :
  let late := unmount;; handleTextSubmit reply text in
  quill (late w).2 = quill w ∧ quillRef_current (late w).2 = false.
Proof.
  unfold mbind, M_bind, unmount. cbn [fst].
  set (w0 := {| quill := quill w; quillRef_current := false; trace := trace w |}).
  destruct (handleTextSubmit_cases reply text w0)
    as [(e & ->) | [(result & ->) | (elems & Hcur & _)]]; done.
Qed.

(** X5.  The last reply to be reconciled wins: after two submissions whose
    replies are arrays, the editor is as if only the second had happened. *)
Theorem last_reply_wins (w : World) (text1 text2 : string) (elems1 elems2 : list Value) :
  quillRef_current w = true →
  let first := handleTextSubmit (replies (VArr elems1)) text1 in
  let second := handleTextSubmit (replies (VArr elems2)) text2 in
  quill (second (first w).2).2 = quill (second w).2.
Proof.
  intros Hcur first second. unfold first, second.
  rewrite (handleTextSubmit_array elems1 text1 w) by done. cbn [snd].
  rewrite !handleTextSubmit_array by done. cbn [snd quill].
  apply reconciled_overrides.
Qed.

Lemma last_reply_wins_witness :
  let w := editor (plain "Hello world") None in
  let first := handleTextSubmit (replies (spans_json [(0, 5)%Z])) "Hello world" in
  let second := handleTextSubmit (replies (spans_json [(6, 5)%Z])) "Hello world" in
  quillRef_current w = true
  ∧ quill (second (first w).2).2 = quill (second w).2.
Proof.
  split; [reflexivity |].
  exact (last_reply_wins (editor (plain "Hello world") None) "Hello world"
           "Hello world" [span_json (0, 5)%Z] [span_json (6, 5)%Z] eq_refl).
Defined.

Lemma applied_spans_iterable (elems : list Value) :
  Forall (λ e, iterable e = true) elems →
  applied_spans elems = omap tuple_span elems ∧ loop_outcome elems = inr tt.
Proof.
  induction 1 as [|e rest He _ [IH1 IH2]]; [done |]. simpl.
  rewrite He, IH1, IH2. split; [|done]. by destruct (tuple_span e).
Qed.

Lemma applied_spans_stop (pre post : list Value) (bad : Value) :
  Forall (λ e, iterable e = true) pre → iterable bad = false →
  applied_spans (pre ++ bad :: post) = omap tuple_span pre
  ∧ loop_outcome (pre ++ bad :: post) = inl (TypeError "argument is not iterable").
Proof.
  intros Hpre Hbad. induction Hpre as [|e rest He _ [IH1 IH2]]; simpl.
  - by rewrite Hbad.
  - rewrite He, IH1, IH2. split; [|done]. by destruct (tuple_span e).
Qed.

Lemma loop_outcome_forallb (elems : list Value) :
  loop_outcome elems
  = if forallb iterable elems then inr tt
    else inl (TypeError "argument is not iterable").
Proof.
  induction elems as [|e rest IH]; [done |]. simpl.
  destruct (iterable e); [exact IH | done].
Qed.

(** X6.  When an element of the reply cannot be destructured, the elements
    before it have been applied and stay applied, those after it are never
    looked at, and the error is logged: the reply is applied in part. *)
Theorem reply_applied_up_to_the_throw (w : World) (text : string)
    (pre post : list Value) (bad : Value) (i : nat) :
  quillRef_current w = true →
  Forall (λ e, iterable e = true) pre →
  iterable bad = false →
  let submit := handleTextSubmit (replies (VArr (pre ++ bad :: post))) text in
  new_events submit w
  = submit_events text (VArr (pre ++ bad :: post))
      ++ [ConsoleError "Error calling feedback API:" (TypeError "argument is not iterable")]
  ∧ (highlighted (document_after submit w) i = true
     ↔ i < List.length (Quill.contents (quill w))
       ∧ ∃ e sp, e ∈ pre ∧ tuple_span e = Some sp ∧ covers sp i).
Proof.
  intros Hcur Hpre Hbad submit.
  destruct (applied_spans_stop pre post bad Hpre Hbad) as [Happlied Hloop].
  split.
  - apply new_events_app. unfold submit, trace_after.
    rewrite handleTextSubmit_array by done. cbn [snd trace].
    unfold loop_events. by rewrite Hloop.
  - unfold submit, document_after.
    rewrite handleTextSubmit_array by done. cbn [snd quill].
    rewrite highlighted_reconciled, Happlied. apply and_iff_compat_l. split.
    + intros (sp & Hsp & Hcov). apply list_elem_of_omap in Hsp as (e & He & Hspan).
      eauto.
    + intros (e & sp & He & Hspan & Hcov). exists sp. split; [|done].
      apply list_elem_of_omap. eauto.
Qed.

Lemma reply_applied_up_to_the_throw_witness :
  let w := editor (plain "Hello world") None in
  let pre := [span_json (0, 5)%Z] in
  let submit :=
    handleTextSubmit (replies (VArr (pre ++ VNum 7 :: [span_json (6, 5)%Z]))) "Hello world" in
  quillRef_current w = true
  ∧ Forall (λ e, iterable e = true) pre
  ∧ iterable (VNum 7) = false
  ∧ new_events submit w
    = submit_events "Hello world" (VArr (pre ++ VNum 7 :: [span_json (6, 5)%Z]))
        ++ [ConsoleError "Error calling feedback API:" (TypeError "argument is not iterable")]
  ∧ (highlighted (document_after submit w) 8 = true
     ↔ 8 < List.length (Quill.contents (quill w))
       ∧ ∃ e sp, e ∈ pre ∧ tuple_span e = Some sp ∧ covers sp 8).
Proof.
  assert (Forall (λ e, iterable e = true) [span_json (0, 5)%Z]) as Hpre
    by (repeat constructor).
  split; [reflexivity |]. split; [exact Hpre |]. split; [reflexivity |].
  exact (reply_applied_up_to_the_throw (editor (plain "Hello world") None)
           "Hello world" [span_json (0, 5)%Z] [span_json (6, 5)%Z] (VNum 7) 8
           eq_refl Hpre eq_refl).
Defined.

(** X7.  Spans whose length is zero or negative make no difference: the
    reply leaves the same editor as the reply without them. *)
Theorem nonpositive_lengths_ignored (w : World) (text : string) (S : list (Z * Z)) :
  quill (handleTextSubmit (replies (spans_json S)) text w).2
  = quill (handleTextSubmit
             (replies (spans_json (filter (λ sp, (0 < sp.2)%Z) S))) text w).2.
Proof.
  unfold spans_json. destruct (quillRef_current w) eqn:Hcur.
  - rewrite !handleTextSubmit_array by done. cbn [snd quill].
    unfold reconciled. rewrite !applied_spans_json. f_equal.
    by rewrite list_filter_filter_l.
  - by rewrite !handleTextSubmit_skip by (by rewrite Hcur).
Qed.

(** X8.  With an array in the reply and the editor attached, an error is
    logged exactly when some element cannot be destructured; a reply of
    arrays and strings, however ill-formed, is taken without a word. *)
Theorem error_logged_iff_not_iterable (w : World) (text : string) (elems : list Value) :
  quillRef_current w = true →
  new_events (handleTextSubmit (replies (VArr elems)) text) w
  = submit_events text (VArr elems)
      ++ (if forallb iterable elems then []
          else [ConsoleError "Error calling feedback API:"
                  (TypeError "argument is not iterable")]).
Proof.
  intros Hcur. apply new_events_app. unfold trace_after.
  rewrite handleTextSubmit_array by done. cbn [snd trace].
  unfold loop_events. rewrite loop_outcome_forallb.
  by destruct (forallb iterable elems).
Qed.

Lemma error_logged_iff_not_iterable_witness :
  let w := editor (plain "Hello world") None in
  let elems := [VStr "ab"; VArr [VNull]; VObj []] in
  quillRef_current w = true
  ∧ forallb iterable elems = false
  ∧ new_events (handleTextSubmit (replies (VArr elems)) "Hello world") w
    = submit_events "Hello world" (VArr elems)
        ++ (if forallb iterable elems then []
            else [ConsoleError "Error calling feedback API:"
                    (TypeError "argument is not iterable")]).
Proof.
  split; [reflexivity |]. split; [reflexivity |].
  exact (error_logged_iff_not_iterable (editor (plain "Hello world") None)
           "Hello world" [VStr "ab"; VArr [VNull]; VObj []] eq_refl).
Defined.

(** ** Clicks *)
Section click_cases.

Implicit Types (q : Quill.Instance) (w : World) (e : MouseEvent) (leaf : Leaf)
  (getLeaf : Quill.Resolver).

(** A click does nothing, or throws on a null leaf, or removes the
    highlight over the leaf at the caret. *)
Lemma onClick_cases getLeaf e w :
  onClick getLeaf e w = (inr tt, w)
  ∨ onClick getLeaf e w = (inl (TypeError "leaf is null"), w)
  ∨ ∃ range leaf,
      Quill.getSelection (quill w) = Some range
      ∧ getLeaf (range_index range) (quill w) = Some leaf
      ∧ onClick getLeaf e w
        = (inr tt,
           with_quill
             (Quill.formatText (Z.of_nat (leaf_offset leaf))
                (Z.of_nat (List.length (text leaf))) "highlight" false
                (quill w)) w).
Proof.
  destruct (classList_contains (target_classList e) HighlightBlot.className) eqn:Hcls.
  - destruct (Quill.getSelection (quill w)) as [range|] eqn:Hsel.
    + destruct (getLeaf (range_index range) (quill w)) as [leaf|] eqn:Hleaf.
      * right. right. exists range, leaf. split; [done |]. split; [done |].
        by apply (onClick_run getLeaf e w range leaf).
      * right. left. unfold onClick. rewrite Hcls.
        unfold mbind, M_bind, quill_get. by rewrite Hsel, Hleaf.
    + left. unfold onClick. rewrite Hcls.
      unfold mbind, M_bind, quill_get. by rewrite Hsel.
  - left. unfold onClick. by rewrite Hcls.
Qed.

Lemma getText_formatText start len name value q :
  Quill.getText (Quill.formatText start len name value q) = Quill.getText q.
Proof.
  unfold Quill.getText. f_equal. apply list_eq. intros i.
  rewrite !list_lookup_fmap, lookup_formatText.
  destruct (Quill.contents q !! i) as [c|]; [|done]. simpl.
  by destruct (Quill.in_range start len i).
Qed.

End click_cases.

(** X9.  A click never touches the text, the selection, the ref, the trace
    or a format other than the highlight, and it never adds a highlight:
    all it can do is remove highlights, whatever leaf the engine resolves. *)
Theorem click_only_removes_highlights (getLeaf : Quill.Resolver) (e : MouseEvent)
    (w : World) :
  let w' := (onClick getLeaf e w).2 in
  Quill.getText (quill w') = Quill.getText (quill w)
  ∧ Quill.selection (quill w') = Quill.selection (quill w)
  ∧ quillRef_current w' = quillRef_current w
  ∧ trace w' = trace w
  ∧ (∀ i c', Quill.contents (quill w') !! i = Some c' →
       ∃ c, Quill.contents (quill w) !! i = Some c ∧ same_but_highlight c' c)
  ∧ (∀ i, highlighted (Quill.contents (quill w')) i = true →
          highlighted (Quill.contents (quill w)) i = true).
Proof.
  destruct (onClick_cases getLeaf e w) as [-> | [-> | (range & leaf & _ & _ & ->)]];
    cbn [snd quill with_quill quillRef_current trace].
  - repeat split; try done. intros i c' Hc. exists c'. by split.
  - repeat split; try done. intros i c' Hc. exists c'. by split.
  - split; [apply getText_formatText |]. do 3 (split; [done |]). split.
    + intros i c'. rewrite lookup_formatText.
      destruct (Quill.contents (quill w) !! i) as [c|]; [|done]. simpl.
      intros [= <-]. exists c. split; [done |].
      destruct (Quill.in_range _ _ i);
        [apply same_but_highlight_off | apply same_but_highlight_refl].
    + intros i. rewrite !highlighted_lookup, lookup_formatText.
      intros (c' & Hc' & Hhl).
      destruct (Quill.contents (quill w) !! i) as [c|]; [|done]. simpl in Hc'.
      injection Hc' as <-. exists c. split; [done |].
      destruct (Quill.in_range _ _ i); [|done].
      fold (highlight_off c) in Hhl. rewrite highlight_off_lookup in Hhl.
      by destruct Hhl.
Qed.

(** ** The submit chord *)

(** X12.  A key other than Ctrl+Enter, or the chord when the host passed no
    [onSubmit], sends nothing and leaves the editor alone; the default
    action of the key is prevented exactly when the chord was pressed. *)
Theorem keydown_without_chord_or_handler (onSubmit : option (string → M unit))
    (e : KeyboardEvent) (w : World) :
  ctrlKey e && String.eqb (key e) "Enter" = false ∨ onSubmit = None →
  let r := onKeydown onSubmit e w in
  quill r.2 = quill w
  ∧ quillRef_current r.2 = quillRef_current w
  ∧ filter (λ ev, is_fetch ev = true) (trace r.2)
    = filter (λ ev, is_fetch ev = true) (trace w)
  ∧ r.1 = inr (if ctrlKey e && String.eqb (key e) "Enter"
               then preventDefault e else e).
Proof.
  intros Hcase. unfold onKeydown.
  destruct (ctrlKey e && String.eqb (key e) "Enter") eqn:Hchord.
  - destruct Hcase as [? | ->]; [done |].
    unfold mbind, M_bind, mret, M_ret, console_log, emit, quill_get.
    cbn [fst snd quill quillRef_current trace].
    repeat split; try done.
    rewrite !filter_app. simpl. by rewrite !app_nil_r.
  - done.
Qed.

Lemma keydown_without_chord_or_handler_witness :
  let e := {| ctrlKey := true; key := "Enter"; defaultPrevented := false |} in
  let w := editor (plain "Hello world") None in
  let r := onKeydown None e w in
  (ctrlKey e && String.eqb (key e) "Enter" = false ∨ (None : option (string → M unit)) = None)
  ∧ quill r.2 = quill w
  ∧ quillRef_current r.2 = quillRef_current w
  ∧ filter (λ ev, is_fetch ev = true) (trace r.2)
    = filter (λ ev, is_fetch ev = true) (trace w)
  ∧ r.1 = inr (if ctrlKey e && String.eqb (key e) "Enter"
               then preventDefault e else e).
Proof.
  assert (ctrlKey {| ctrlKey := true; key := "Enter"; defaultPrevented := false |}
          && String.eqb (key {| ctrlKey := true; key := "Enter"; defaultPrevented := false |})
               "Enter" = false
          ∨ (None : option (string → M unit)) = None) as Hcase by (right; reflexivity).
  split; [exact Hcase |].
  exact (keydown_without_chord_or_handler None
           {| ctrlKey := true; key := "Enter"; defaultPrevented := false |}
           (editor (plain "Hello world") None) Hcase).
Defined.

(** X13.  Ctrl+Enter with [handleTextSubmit] as the handler prevents the
    default action and sends exactly one request, whose text is the full
    text of the editor at the time of the key press, whatever the scorer
    then replies. *)
Theorem chord_posts_the_editor_text (reply : Reply) (e : KeyboardEvent) (w : World) :
  ctrlKey e && String.eqb (key e) "Enter" = true →
  let r := onKeydown (Some (handleTextSubmit reply)) e w in
  r.1 = inr (preventDefault e)
  ∧ filter (λ ev, is_fetch ev = true) (trace r.2)
    = filter (λ ev, is_fetch ev = true) (trace w)
        ++ [FetchCall FEEDBACK_URL "POST" (Quill.getText (quill w))].
Proof.
  intros Hchord. unfold onKeydown. rewrite Hchord.
  unfold mbind, M_bind, mret, M_ret, console_log, emit, quill_get.
  cbn [fst snd quill].
  set (w0 := {| quill := quill w; quillRef_current := quillRef_current w;
                trace := trace w ++ [ConsoleLog "Ctrl+Enter pressed via event listener!"
                                       VUndefined] |}).
  set (text := Quill.getText (quill w)).
  destruct (handleTextSubmit_cases reply text w0)
    as [(err & ->) | [(result & ->) | (elems & _ & ->)]];
    cbn [fst snd trace with_trace]; (split; [done |]);
    unfold w0; cbn [trace]; rewrite !filter_app, ?loop_events_errors; simpl;
    by rewrite ?app_nil_r.
Qed.

Lemma chord_posts_the_editor_text_witness :
  let e := {| ctrlKey := true; key := "Enter"; defaultPrevented := false |} in
  let w := editor (plain "Hello world") None in
  let r := onKeydown (Some (handleTextSubmit (replies (spans_json [(0, 5)%Z])))) e w in
  ctrlKey e && String.eqb (key e) "Enter" = true
  ∧ r.1 = inr (preventDefault e)
  ∧ filter (λ ev, is_fetch ev = true) (trace r.2)
    = filter (λ ev, is_fetch ev = true) (trace w)
        ++ [FetchCall FEEDBACK_URL "POST" (Quill.getText (quill w))].
Proof.
  split; [reflexivity |].
  exact (chord_posts_the_editor_text (replies (spans_json [(0, 5)%Z]))
           {| ctrlKey := true; key := "Enter"; defaultPrevented := false |}
           (editor (plain "Hello world") None) eq_refl).
Defined.

(** ** A reconciliation, then a click *)
Section reconcile_then_click.

Implicit Types (q : Quill.Instance) (w : World) (e : MouseEvent)
  (elems : list Value) (S : list (Z * Z)) (i a b : nat).

Lemma highlighted_formatText_off (start len : Z) q i :
  highlighted
    (Quill.contents (Quill.formatText start len "highlight" false q)) i = true
  ↔ highlighted (Quill.contents q) i = true ∧ Quill.in_range start len i = false.
Proof.
  rewrite !highlighted_lookup, lookup_formatText.
  destruct (Quill.contents q !! i) as [c|]; simpl.
  - destruct (Quill.in_range start len i).
    + split.
      * intros (c' & [= <-] & Hhl). fold (highlight_off c) in Hhl.
        rewrite highlight_off_lookup in Hhl. by destruct Hhl.
      * by intros [_ ?].
    + split.
      * intros (c' & [= <-] & Hhl). split; [by exists c | done].
      * intros [(c' & [= <-] & Hhl) _]. by exists c.
  - split; [by intros (c' & [=] & _) | by intros [(c' & [=] & _) _]].
Qed.

(** After a reconciliation, a stretch that is covered throughout, whose
    neighbours are not covered, and whose characters agree on their other
    formats, is one highlighted run. *)
Lemma reconciled_is_run elems q a b :
  a < b → (b ≤ List.length (Quill.contents q))%nat →
  (∀ i, a ≤ i < b → Exists (λ sp, covers sp i) (applied_spans elems)) →
  (∀ i, i + 1 = a → ¬ Exists (λ sp, covers sp i) (applied_spans elems)) →
  ¬ Exists (λ sp, covers sp b) (applied_spans elems) →
  same_base (Quill.contents q) a b →
  ∃ f, is_run (Quill.contents (reconciled elems q)) a (b - a) f.
Proof.
  intros Hab Hb Hin Hleft Hright Hbase.
  assert (a < List.length (Quill.contents q)) as Ha by lia.
  destruct (lookup_lt_is_Some_2 _ _ Ha) as [ca Hca].
  exists (formats (highlight_on (highlight_off ca))).
  assert (∀ c, formats (highlight_off c)
               ≠ formats (highlight_on (highlight_off ca))) as Hoff.
  { intros c Heq.
    pose proof (highlight_off_lookup c) as H1.
    pose proof (highlight_on_lookup (highlight_off ca)) as H2. congruence. }
  unfold is_run. split; [lia |]. split; [|split].
  - intros j Hj. rewrite lookup_reconciled.
    assert (j < List.length (Quill.contents q)) as Hjl by lia.
    destruct (lookup_lt_is_Some_2 _ _ Hjl) as [cj Hcj]. rewrite Hcj. simpl.
    rewrite decide_True by (apply Hin; lia). f_equal.
    assert (formats (highlight_off cj) = formats (highlight_off ca)) as Hsame
      by (apply (Hbase j a cj ca); [lia | lia | done | done]).
    unfold highlight_on, Quill.format_char. cbn [formats]. by rewrite Hsame.
  - intros j Hj. rewrite lookup_reconciled.
    destruct (Quill.contents q !! j) as [cj|]; [|done]. simpl.
    rewrite decide_False by (by apply Hleft). intros [= Heq]. by apply (Hoff cj).
  - replace (a + (b - a)) with b by lia. rewrite lookup_reconciled.
    destruct (Quill.contents q !! b) as [cb|]; [|done]. simpl.
    rewrite decide_False by done. intros [= Heq]. by apply (Hoff cb).
Qed.

End reconcile_then_click.

(** X15.  Dismissing one highlight of a reply.  When the spans of the reply
    are in bounds and neither overlap nor touch, and the characters of one
    of them agree on their other formats, a click with the caret inside
    that span, past its first character, removes exactly its highlight:
    afterwards a character is highlighted if and only if one of the other
    spans covers it.  This holds whichever way the engine resolves a
    boundary. *)
Theorem dismiss_one_of_the_spans (getLeaf : Quill.Resolver) (w : World)
    (text : string) (S : list (Z * Z))
    (sp : Z * Z) (e : MouseEvent) (range : Range) (i : nat) :
  resolves_runs getLeaf →
  quillRef_current w = true →
  Forall (in_bounds (List.length (Quill.contents (quill w)))) S →
  separated S →
  sp ∈ S →
  same_base (Quill.contents (quill w)) (Z.to_nat sp.1) (Z.to_nat (sp.1 + sp.2)) →
  classList_contains (target_classList e) "ql-highlight" = true →
  Quill.getSelection (quill w) = Some range →
  covers sp (range_index range) →
  (sp.1 < Z.of_nat (range_index range))%Z →
  let w1 := (handleTextSubmit (replies (spans_json S)) text w).2 in
  highlighted (document_after (onClick getLeaf e) w1) i = true
  ↔ ∃ sp', sp' ∈ S ∧ sp' ≠ sp ∧ covers sp' i.
Proof.
  intros Hres Hcur Hbounds Hsep Hsp Hbase Hcls Hsel Hcaret Hpast.
  unfold spans_json. rewrite handleTextSubmit_array by done. cbn [snd].
  set (elems := span_json <$> S).
  set (w1 := {| quill := reconciled elems (quill w) |}).
  rewrite Forall_forall in Hbounds.
  destruct (Hbounds sp Hsp) as (Hs0 & Hl0 & Hend).
  assert (∀ j, Exists (λ sp', covers sp' j) (applied_spans elems)
               ↔ ∃ sp', sp' ∈ S ∧ covers sp' j) as Hcov.
  { intros j. rewrite Exists_exists. apply covered_json. }
  assert (∀ sp' j, sp' ∈ S → covers sp' j → sp' ≠ sp → ¬ covers sp j) as Hother.
  { intros sp' j Hin Hc Hne Hc'. destruct (Hsep sp' sp Hin Hsp Hne);
      unfold covers in *; lia. }
  destruct (reconciled_is_run elems (quill w) (Z.to_nat sp.1) (Z.to_nat (sp.1 + sp.2)))
    as [f Hrun].
  - lia.
  - lia.
  - intros j Hj. apply Hcov. exists sp. split; [done |]. unfold covers. lia.
  - intros j Hj. rewrite Hcov. intros (sp' & Hin & Hc).
    destruct (decide (sp' = sp)) as [->|Hne]; [unfold covers in Hc; lia |].
    destruct (Hsep sp' sp Hin Hsp Hne); unfold covers in Hc; lia.
  - rewrite Hcov. intros (sp' & Hin & Hc).
    destruct (decide (sp' = sp)) as [->|Hne]; [unfold covers in Hc; lia |].
    destruct (Hsep sp' sp Hin Hsp Hne); unfold covers in Hc; lia.
  - done.
  - unfold document_after.
    rewrite (onClick_dismisses_run getLeaf e w1 range (Z.to_nat sp.1)
               (Z.to_nat (sp.1 + sp.2) - Z.to_nat sp.1) f Hres Hcls); cycle 1.
    + unfold w1. cbn [quill]. unfold Quill.getSelection.
      by rewrite selection_reconciled.
    + exact Hrun.
    + unfold covers in Hcaret. lia.
    + left. lia.
    + cbn [snd with_quill quill]. unfold w1. cbn [quill].
      rewrite highlighted_formatText_off, highlighted_reconciled.
      fold elems. rewrite <- Exists_exists, Hcov. split.
      * intros [[_ (sp' & Hin & Hc)] Hout]. exists sp'. split; [done |].
        split; [|done]. intros ->.
        assert (Quill.in_range (Z.of_nat (Z.to_nat sp.1))
                  (Z.of_nat (Z.to_nat (sp.1 + sp.2) - Z.to_nat sp.1)) i = true);
          [|congruence].
        unfold Quill.in_range. apply andb_true_iff. unfold covers in Hc.
        rewrite Z.leb_le, Z.ltb_lt. lia.
      * intros (sp' & Hin & Hne & Hc). split.
        -- split; [|by eauto].
           destruct (Hbounds sp' Hin) as (_ & _ & Hend'). unfold covers in Hc. lia.
        -- apply not_true_is_false. intros Hr.
           apply (Hother sp' i Hin Hc Hne).
           unfold Quill.in_range in Hr.
           apply andb_true_iff in Hr as [H1%Z.leb_le H2%Z.ltb_lt].
           unfold covers. lia.
Qed.

Lemma same_base_plain (s : string) (a b : nat) : same_base (plain s) a b.
Proof.
  intros i j ci cj _ _ Hci Hcj. unfold plain in *.
  rewrite list_lookup_fmap in Hci, Hcj.
  destruct (list_ascii_of_string s !! i); [|done].
  destruct (list_ascii_of_string s !! j); [|done].
  simpl in *. by injection Hci as <-; injection Hcj as <-.
Qed.

Lemma separated_two (p q : Z * Z) :
  (p.1 + p.2 < q.1)%Z → separated [p; q].
Proof.
  intros Hgap x y Hx Hy Hne.
  apply elem_of_cons in Hx as [->|Hx]; apply elem_of_cons in Hy as [->|Hy];
    try done.
  - apply list_elem_of_singleton in Hy as ->. by left.
  - apply list_elem_of_singleton in Hx as ->. by right.
  - apply list_elem_of_singleton in Hx as ->.
    by apply list_elem_of_singleton in Hy as ->.
Qed.

Lemma dismiss_one_of_the_spans_witness :
  let w := editor (plain "Hello world") (Some {| range_index := 2; range_length := 0 |}) in
  let e := {| target_classList := ["ql-highlight"] |} in
  let S := [(0, 5); (6, 5)]%Z in
  let w1 := (handleTextSubmit (replies (spans_json S)) "Hello world" w).2 in
  resolves_runs Quill.getLeaf
  ∧ highlighted (Quill.contents (quill w1)) 2 = true
  ∧ (highlighted (document_after (onClick Quill.getLeaf e) w1) 8 = true
     ↔ ∃ sp', sp' ∈ S ∧ sp' ≠ (0, 5)%Z ∧ covers sp' 8).
Proof.
  assert (Forall (in_bounds 11) [(0, 5); (6, 5)]%Z) as Hb
    by (repeat constructor; simpl; lia).
  assert (separated [(0, 5); (6, 5)]%Z) as Hsep
    by (apply separated_two; simpl; lia).
  assert ((0, 5)%Z ∈ [(0, 5); (6, 5)]%Z) as Hin by (by left).
  assert (same_base (plain "Hello world") (Z.to_nat 0) (Z.to_nat (0 + 5))) as Hbase
    by apply same_base_plain.
  assert (covers (0, 5)%Z 2) as Hcaret by (unfold covers; simpl; lia).
  split; [apply getLeaf_resolves_runs |].
  split; [vm_compute; reflexivity |].
  exact (dismiss_one_of_the_spans Quill.getLeaf
           (editor (plain "Hello world") (Some {| range_index := 2; range_length := 0 |}))
           "Hello world" [(0, 5); (6, 5)]%Z (0, 5)%Z
           {| target_classList := ["ql-highlight"] |}
           {| range_index := 2; range_length := 0 |} 8
           getLeaf_resolves_runs eq_refl Hb Hsep Hin Hbase eq_refl eq_refl Hcaret
           ltac:(simpl; lia)).
Defined.

(** X16.  Spans that touch become one run.  When the reply holds two spans
    of which the second starts where the first ends, and their characters
    agree on their other formats, one click with the caret in either of
    them, past the first character of the first, dismisses both: no
    character is highlighted afterwards.  This holds whichever way the
    engine resolves a boundary. *)
Theorem touching_spans_dismissed_together (getLeaf : Quill.Resolver) (w : World)
    (text : string)
    (a n m : nat) (e : MouseEvent) (range : Range) (i : nat) :
  resolves_runs getLeaf →
  quillRef_current w = true →
  0 < n → 0 < m →
  (a + n + m ≤ List.length (Quill.contents (quill w)))%nat →
  same_base (Quill.contents (quill w)) a (a + n + m) →
  classList_contains (target_classList e) "ql-highlight" = true →
  Quill.getSelection (quill w) = Some range →
  a < range_index range < a + n + m →
  let S := [(Z.of_nat a, Z.of_nat n); (Z.of_nat (a + n), Z.of_nat m)] in
  let w1 := (handleTextSubmit (replies (spans_json S)) text w).2 in
  highlighted (document_after (onClick getLeaf e) w1) i = false.
Proof.
  intros Hres Hcur Hn Hm Hend Hbase Hcls Hsel Hcaret S.
  unfold spans_json. rewrite handleTextSubmit_array by done. cbn [snd].
  set (elems := span_json <$> S).
  set (w1 := {| quill := reconciled elems (quill w) |}).
  assert (∀ j, Exists (λ sp', covers sp' j) (applied_spans elems)
               ↔ a ≤ j < a + n + m) as Hcov.
  { intros j. rewrite Exists_exists. unfold elems. rewrite covered_json. split.
    - intros (sp & Hin & Hc). unfold S in Hin.
      apply elem_of_cons in Hin as [->|Hin];
        [|apply list_elem_of_singleton in Hin as ->];
        unfold covers in Hc; simpl in Hc; lia.
    - intros Hj. destruct (decide (j < a + n)).
      + exists (Z.of_nat a, Z.of_nat n). split; [by left |].
        unfold covers. simpl. lia.
      + exists (Z.of_nat (a + n), Z.of_nat m). split; [right; by left |].
        unfold covers. simpl. lia. }
  destruct (reconciled_is_run elems (quill w) a (a + n + m)) as [f Hrun];
    [lia | lia | .. | done |].
  - intros j Hj. by apply Hcov.
  - intros j Hj. rewrite Hcov. lia.
  - rewrite Hcov. lia.
  - apply not_true_is_false. unfold document_after.
    rewrite (onClick_dismisses_run getLeaf e w1 range a (a + n + m - a) f
               Hres Hcls); cycle 1.
    + unfold w1. cbn [quill]. unfold Quill.getSelection.
      by rewrite selection_reconciled.
    + exact Hrun.
    + lia.
    + left. lia.
    + cbn [snd with_quill quill]. unfold w1. cbn [quill].
      rewrite highlighted_formatText_off, highlighted_reconciled.
      rewrite <- Exists_exists, Hcov. intros [[_ Hj] Hout].
      unfold Quill.in_range in Hout. apply andb_false_iff in Hout.
      rewrite Z.leb_gt, Z.ltb_ge in Hout. lia.
Qed.

Lemma touching_spans_dismissed_together_witness :
  let w := editor (plain "Hello world") (Some {| range_index := 2; range_length := 0 |}) in
  let e := {| target_classList := ["ql-highlight"] |} in
  let S := [(Z.of_nat 0, Z.of_nat 5); (Z.of_nat (0 + 5), Z.of_nat 6)] in
  let w1 := (handleTextSubmit (replies (spans_json S)) "Hello world" w).2 in
  resolves_runs Quill.getLeaf
  ∧ highlighted (Quill.contents (quill w1)) 8 = true
  ∧ highlighted (document_after (onClick Quill.getLeaf e) w1) 8 = false.
Proof.
  assert (0 + 5 + 6 ≤ List.length (plain "Hello world"))%nat as Hend
    by (vm_compute; lia).
  split; [apply getLeaf_resolves_runs |].
  split; [vm_compute; reflexivity |].
  exact (touching_spans_dismissed_together Quill.getLeaf
           (editor (plain "Hello world") (Some {| range_index := 2; range_length := 0 |}))
           "Hello world" 0 5 6 {| target_classList := ["ql-highlight"] |}
           {| range_index := 2; range_length := 0 |} 8
           getLeaf_resolves_runs eq_refl ltac:(lia) ltac:(lia) Hend
           (same_base_plain _ _ _) eq_refl eq_refl ltac:(simpl; lia)).
Defined.

(** ** A click, then a reconciliation *)

(** A reconciliation starts from a clean slate: it does not see which
    highlights the editor had. *)
Lemma reconciled_forgets (elems : list Value) (q1 q2 : Quill.Instance) :
  Quill.selection q1 = Quill.selection q2 →
  (∀ i, highlight_off <$> Quill.contents q1 !! i
        = highlight_off <$> Quill.contents q2 !! i) →
  reconciled elems q1 = reconciled elems q2.
Proof.
  intros Hsel Hoff.
  assert (∀ qa qb : Quill.Instance,
    Quill.contents qa = Quill.contents qb →
    Quill.selection qa = Quill.selection qb → qa = qb) as Heq.
  { intros [d1 s1] [d2 s2]; simpl; by intros -> ->. }
  apply Heq; [|by rewrite !selection_reconciled].
  apply list_eq. intros i. rewrite !lookup_reconciled.
  specialize (Hoff i).
  destruct (Quill.contents q1 !! i) as [c1|], (Quill.contents q2 !! i) as [c2|];
    try done.
  assert (highlight_off c1 = highlight_off c2) as Hc by (simpl in Hoff; congruence).
  simpl. by rewrite Hc.
Qed.

(** X17.  A dismissal is not remembered: a click followed by a submission
    whose reply is an array leaves the editor as the submission alone
    does, so a highlight the user dismissed comes back with the next reply
    that contains it. *)
Theorem reply_overrides_dismissal (getLeaf : Quill.Resolver) (w : World)
    (e : MouseEvent) (text : string) (elems : list Value) :
  quillRef_current w = true →
  let submit := handleTextSubmit (replies (VArr elems)) text in
  quill (submit (onClick getLeaf e w).2).2 = quill (submit w).2.
Proof.
  intros Hcur submit. unfold submit.
  destruct (onClick_cases getLeaf e w) as [-> | [-> | (range & leaf & _ & _ & ->)]];
    cbn [snd]; [done | done |].
  rewrite !handleTextSubmit_array by done. cbn [snd quill with_quill].
  apply reconciled_forgets; [done |].
  intros i. rewrite lookup_formatText.
  destruct (Quill.contents (quill w) !! i) as [c|]; [|done]. simpl. f_equal.
  destruct (Quill.in_range _ _ i); [|done].
  apply highlight_off_off.
Qed.

Lemma reply_overrides_dismissal_witness :
  let e := {| target_classList := ["ql-highlight"] |} in
  let w := dismiss_example in
  let submit := handleTextSubmit (replies (spans_json [(5, 10)%Z])) "x" in
  quillRef_current w = true
  ∧ highlighted (document_after (onClick Quill.getLeaf e) w) 9 = false
  ∧ quill (submit (onClick Quill.getLeaf e w).2).2 = quill (submit w).2.
Proof.
  split; [reflexivity |]. split; [vm_compute; reflexivity |].
  exact (reply_overrides_dismissal Quill.getLeaf dismiss_example
           {| target_classList := ["ql-highlight"] |} "x"
           [span_json (5, 10)%Z] eq_refl).
Defined.

Lemma highlight_off_id (c : Char) :
  formats c !! "highlight" = None → highlight_off c = c.
Proof.
  intros Hnone. destruct c as [a f]. unfold highlight_off, Quill.format_char.
  simpl in *. f_equal. by apply delete_id.
Qed.

(** X18.  What a click dismisses is decided by the selection, not by the
    element that was clicked: when neither the character at the caret nor
    the character before it is highlighted, a click changes nothing,
    whichever way the engine resolves a boundary. *)
Theorem click_with_caret_off_highlight (getLeaf : Quill.Resolver) (e : MouseEvent)
    (w : World) (range : Range) :
  resolves_runs getLeaf →
  Quill.getSelection (quill w) = Some range →
  highlighted (Quill.contents (quill w)) (range_index range) = false →
  (∀ j, j + 1 = range_index range →
        highlighted (Quill.contents (quill w)) j = false) →
  quill (onClick getLeaf e w).2 = quill w.
Proof.
  intros Hres Hsel Hplain Hprev.
  destruct (onClick_cases getLeaf e w)
    as [-> | [-> | (range' & leaf & Hsel' & Hleaf & ->)]];
    cbn [snd quill with_quill]; [done | done |].
  rewrite Hsel in Hsel'. injection Hsel' as <-.
  destruct (Hres (range_index range) (quill w)) as [_ Hsound].
  destruct (Hsound leaf Hleaf) as [(Hn & Hin & _ & _) Hcaret].
  assert (∀ j, formats <$> Quill.contents (quill w) !! j = Some (leaf_formats leaf) →
               highlighted (Quill.contents (quill w)) j = false →
               leaf_formats leaf !! "highlight" = None) as Hoff.
  { intros j Hj Hhl. unfold highlighted in Hhl.
    destruct (Quill.contents (quill w) !! j) as [c|]; [|done].
    simpl in Hj. injection Hj as <-.
    apply bool_decide_eq_false in Hhl.
    destruct (formats c !! "highlight") eqn:Hf; [|done].
    exfalso. apply Hhl. by eexists. }
  assert (leaf_formats leaf !! "highlight" = None) as Hnone.
  { destruct (decide (range_index range < leaf_offset leaf + List.length (text leaf)))
      as [Hlt|Hend].
    - apply (Hoff (range_index range)); [apply Hin; lia | done].
    - apply (Hoff (range_index range - 1)); [apply Hin; lia | apply Hprev; lia]. }
  destruct (quill w) as [doc sel] eqn:Hq. unfold Quill.formatText.
  cbn [Quill.contents Quill.selection] in *.
  f_equal. apply list_eq. intros i. rewrite list_lookup_imap.
  destruct (doc !! i) as [c|] eqn:Hc; [|done]. simpl. f_equal.
  destruct (Quill.in_range _ _ i) eqn:Hr; [|done].
  apply highlight_off_id.
  unfold Quill.in_range in Hr. apply andb_true_iff in Hr as [H1%Z.leb_le H2%Z.ltb_lt].
  assert (formats <$> doc !! i = Some (leaf_formats leaf)) as Hi by (apply Hin; lia).
  rewrite Hc in Hi. simpl in Hi. injection Hi as ->. done.
Qed.

Lemma click_with_caret_off_highlight_witness :
  let e := {| target_classList := ["ql-highlight"] |} in
  let range := {| range_index := 7; range_length := 0 |} in
  let w := editor ((highlight_on <$> plain "Hello") ++ plain " world") (Some range) in
  resolves_runs Quill.getLeaf
  ∧ Quill.getSelection (quill w) = Some range
  ∧ highlighted (Quill.contents (quill w)) 4 = true
  ∧ highlighted (Quill.contents (quill w)) (range_index range) = false
  ∧ (∀ j, j + 1 = range_index range →
          highlighted (Quill.contents (quill w)) j = false)
  ∧ quill (onClick Quill.getLeaf e w).2 = quill w.
Proof.
  assert (highlighted ((highlight_on <$> plain "Hello") ++ plain " world") 7 = false)
    as Hplain by (vm_compute; reflexivity).
  assert (∀ j, j + 1 = 7 →
            highlighted ((highlight_on <$> plain "Hello") ++ plain " world") j = false)
    as Hprev.
  { intros j Hj. assert (j = 6) as -> by lia. vm_compute. reflexivity. }
  split; [apply getLeaf_resolves_runs |]. split; [reflexivity |].
  split; [vm_compute; reflexivity |]. split; [exact Hplain |]. split; [exact Hprev |].
  exact (click_with_caret_off_highlight Quill.getLeaf
           {| target_classList := ["ql-highlight"] |}
           (editor ((highlight_on <$> plain "Hello") ++ plain " world")
              (Some {| range_index := 7; range_length := 0 |}))
           {| range_index := 7; range_length := 0 |}
           getLeaf_resolves_runs eq_refl Hplain Hprev).
Defined.
